(** * registry/images.py: the image endpoints of the registry

    A shallow embedding of [src/registry/images.py] and the properties of
    its upload protocol: the completion marker, the checksum comparison,
    the write-collision rule and the ancestry chain.

    The handlers are Flask view functions that act on one shared blob
    store and on the client's signed session.  They are embedded as
    computations in a state-and-exception monad over the pair
    (store, session); a Python exception that no [except] clause of the
    source catches leaves the handler as [Raise]. *)

From Stdlib Require Import ZArith String Ascii List.
From stdpp Require Import base option gmap strings list pretty.

Local Open Scope string_scope.
Local Open Scope Z_scope.

(** ** Decoded JSON values

    What [json.loads] hands to the handlers.  Objects keep their fields
    as an association list and are read with the first binding of a key.
    Numbers are integers; the handlers look at a number only to test it
    for truth. *)

#[local] Unset Elimination Schemes.
Inductive json : Type :=
  | JNull
  | JBool (b : bool)
  | JNum (n : Z)
  | JStr (s : string)
  | JArr (items : list json)
  | JObj (fields : list (string * json)).
#[local] Set Elimination Schemes.

(** [d.get(k)] on the fields of an object. *)
Fixpoint dict_get (k : string) (fields : list (string * json)) : option json :=
  match fields with
  | [] => None
  | (k', v) :: rest => if decide (k' = k) then Some v else dict_get k rest
  end.

(** Python's truth value of a decoded document. *)
Definition truthy (v : json) : bool :=
  match v with
  | JNull => false
  | JBool b => b
  | JNum n => negb (n =? 0)
  | JStr s => negb (String.eqb s "")
  | JArr items => match items with [] => false | _ => true end
  | JObj fields => match fields with [] => false | _ => true end
  end.

(** Truth value of a Python [str]. *)
Definition nonempty (s : string) : bool := negb (String.eqb s "").

(** [s == v] for a [str] s and a decoded value v. *)
Definition str_eq_json (s : string) (v : json) : bool :=
  match v with
  | JStr s' => bool_decide (s = s')
  | _ => false
  end.

(** [s.split(sep)] with a one-character separator. *)
Fixpoint split (sep : ascii) (s : string) : list string :=
  match s with
  | EmptyString => [EmptyString]
  | String c s' =>
      if decide (c = sep) then EmptyString :: split sep s'
      else match split sep s' with
           | [] => [String c EmptyString]
           | w :: ws => String c w :: ws
           end
  end.

(** [needle in haystack] on two strings. *)
Fixpoint is_substring (needle hay : string) : bool :=
  String.prefix needle hay
  || match hay with
     | EmptyString => false
     | String _ hay' => is_substring needle hay'
     end.

(** ** Exceptions and results *)

Inductive exn : Type :=
  | IOError
  | OSError
  | JSONDecodeError
  | UnboundLocalError
  | TypeError
  | AttributeError.

#[global] Instance exn_eq_dec : EqDecision exn.
Proof. solve_decision. Defined.

Inductive result (A : Type) : Type :=
  | Ok (a : A)
  | Raise (e : exn).
Arguments Ok {A} a.
Arguments Raise {A} e.

(** [image_id in images_list]: element test on a list, key test on a dict,
    substring test on a string, [TypeError] on anything else. *)
Definition py_in (image_id : string) (v : json) : result bool :=
  match v with
  | JArr items => Ok (existsb (str_eq_json image_id) items)
  | JObj fields => Ok (bool_decide (is_Some (dict_get image_id fields)))
  | JStr s => Ok (is_substring image_id s)
  | _ => Raise TypeError
  end.

(** ** The blob store

    Modelled from the spec: the storage backend ([storage.load()], module
    [storage]) is not part of these sources.  The spec gives it as a
    key/path-addressed store with get/put/exists/remove/stream primitives
    and one blob per image attribute: [json], [layer], [checksum], [mark]
    and [ancestry], plus a per-repository image list. *)

Inductive blob : Type := Json | Layer | Checksum | Mark | Ancestry.

Inductive path : Type :=
  | ImagePath (b : blob) (image_id : string)
  | ImagesList (parts : list string).

Definition image_json_path := ImagePath Json.
Definition image_layer_path := ImagePath Layer.
Definition image_checksum_path := ImagePath Checksum.
Definition image_mark_path := ImagePath Mark.
Definition image_ancestry_path := ImagePath Ancestry.
Definition images_list_path := ImagesList.

#[global] Instance blob_eq_dec : EqDecision blob.
Proof. solve_decision. Defined.

#[global] Instance blob_countable : Countable blob.
Proof.
  refine (inj_countable'
    (fun b => match b with
              | Json => 0%nat | Layer => 1%nat | Checksum => 2%nat
              | Mark => 3%nat | Ancestry => 4%nat end)
    (fun n => match n with
              | 0%nat => Json | 1%nat => Layer | 2%nat => Checksum
              | 3%nat => Mark | _ => Ancestry end) _).
  by intros [].
Defined.

#[global] Instance path_eq_dec : EqDecision path.
Proof. solve_decision. Defined.

#[global] Instance path_countable : Countable path.
Proof.
  refine (inj_countable'
    (fun p => match p with
              | ImagePath b i => inl (b, i)
              | ImagesList parts => inr parts end)
    (fun x => match x with
              | inl (b, i) => ImagePath b i
              | inr parts => ImagesList parts end) _).
  by intros [].
Defined.

(** The client's session, as far as the handlers use it: the digest set
    a layer push left for the checksum push, the repository the
    authorization gate established, and Flask's [modified] flag. *)
Record session_t : Type := mk_session {
  s_checksum : option (list string);
  s_repository : option string;
  s_modified : bool }.

Record state : Type := mk_state {
  store : gmap path string;
  session : session_t }.

(** ** The handler monad *)

Definition M (A : Type) : Type := state -> result A * state.

#[global] Instance M_ret : MRet M := fun A a st => (Ok a, st).

#[global] Instance M_bind : MBind M := fun A B k m st =>
  match m st with
  | (Ok a, st') => k a st'
  | (Raise e, st') => (Raise e, st')
  end.

#[global] Instance M_fmap : FMap M := fun A B f m st =>
  match m st with
  | (Ok a, st') => (Ok (f a), st')
  | (Raise e, st') => (Raise e, st')
  end.

Definition raise {A} (e : exn) : M A := fun st => (Raise e, st).

Definition lift {A} (r : result A) : M A := fun st => (r, st).

(** [try: m except e: h]. *)
Definition try_except {A} (m : M A) (e : exn) (h : M A) : M A := fun st =>
  match m st with
  | (Raise e', st') => if decide (e' = e) then h st' else (Raise e', st')
  | r => r
  end.

(** [try: x = m except e: return ...]: [None] stands for the branch that
    returns from inside the [except] clause. *)
Definition attempt {A} (m : M A) (e : exn) : M (option A) :=
  try_except (Some <$> m) e (mret None).

(** *** Store primitives *)

Definition store_exists (p : path) : M bool := fun st =>
  (Ok (bool_decide (is_Some (store st !! p))), st).

Definition store_get_content (p : path) : M string := fun st =>
  match store st !! p with
  | Some c => (Ok c, st)
  | None => (Raise IOError, st)
  end.

Definition store_put_content (p : path) (c : string) : M unit := fun st =>
  (Ok tt, mk_state (<[p := c]> (store st)) (session st)).

Definition store_remove (p : path) : M unit := fun st =>
  (Ok tt, mk_state (delete p (store st)) (session st)).

Definition store_stream_read (p : path) : M string := store_get_content p.

Definition store_stream_write (p : path) (body : string) : M unit :=
  store_put_content p body.

Definition store_get_size (p : path) : M nat := fun st =>
  match store st !! p with
  | Some c => (Ok (String.length c), st)
  | None => (Raise OSError, st)
  end.

(** *** Session primitives *)

(** [flask.session.get('checksum')] *)
Definition session_get_checksum : M (option (list string)) := fun st =>
  (Ok (s_checksum (session st)), st).

(** [flask.session.get('repository')] *)
Definition session_get_repository : M (option string) := fun st =>
  (Ok (s_repository (session st)), st).

(** [flask.session['checksum'] = csums]; an assignment marks the session
    as modified. *)
Definition session_set_checksum (csums : list string) : M unit := fun st =>
  (Ok tt, mk_state (store st)
            (mk_session (Some csums) (s_repository (session st)) true)).

(** [flask.session.modified = b] *)
Definition session_set_modified (b : bool) : M unit := fun st =>
  (Ok tt, mk_state (store st)
            (mk_session (s_checksum (session st))
                        (s_repository (session st)) b)).

(** ** Requests and responses *)

(** The parts of [flask.request] the handlers read.  Header names are
    case-insensitive in Flask, so each header the source looks up is a
    field. *)
Record request : Type := mk_request {
  x_docker_checksum : option string;
  if_modified_since : option string;
  transfer_encoding : option string;
  data : string;            (* flask.request.data *)
  stream : string;          (* flask.request.stream *)
  wsgi_input : string;      (* flask.request.environ['wsgi.input'] *)
  time_now : Z              (* int(time.time()) *) }.

(** What a handler returns: a [flask.Response], [toolkit.api_error(message,
    code)] with [None] for an omitted code, or [toolkit.response(data,
    headers=..., raw=...)] with [None] for an omitted argument. *)
Inductive response : Type :=
  | flask_Response (body : string) (status : Z) (headers : gmap string string)
  | api_error (message : string) (code : option Z)
  | toolkit_response (body : option json)
                     (headers : option (gmap string string)) (raw : bool).

(** [toolkit.response()] *)
Definition ack : response := toolkit_response None None false.

(** ** Collaborators outside these sources

    [simplejson], the digest primitives of [checksums], the text form of
    a storage path, [strftime] and the configuration are used by
    [images.py] and defined elsewhere; the handlers are parametric in
    them. *)
Class External : Type := {
  (** [json.loads]; [None] when it raises [JSONDecodeError] *)
  json_loads : string -> option json;
  (** [json.dumps] *)
  json_dumps : json -> string;
  (** the text of a decoded value where the storage formats it into a
      path; the identity on a string *)
  format_id : json -> string;
  (** the string a path object stands for *)
  path_name : path -> string;
  (** [datetime.fromtimestamp(t).strftime('%a, %d %b %Y %H:%M:%S GMT')] *)
  strftime_gmt : Z -> string;
  (** [h.hexdigest()] of [checksums.simple_checksum_handler(json_data)]
      once the stream went through its handler *)
  simple_checksum_hexdigest : string -> string -> string;
  (** [checksums.compute_tarsum(tmp, json_data)]; [None] when it raises
      [IOError] or [TarError] *)
  compute_tarsum : string -> string -> option string;
  (** [cfg.nginx_x_accel_redirect] *)
  nginx_x_accel_redirect : option string;
  (** [isinstance(store, LocalStorage)] *)
  store_is_local : bool }.

(** ** The handlers

    [toolkit.requires_auth], the outermost decorator of every route, is
    the external authorization gate; each definition below is the function
    it wraps, that is, what runs once the gate lets the request through. *)

Section Handlers.
Context `{External}.

(** [require_completion] *)
Definition require_completion (f : string -> M response)
    (image_id : string) : M response :=
  marked ← store_exists (image_mark_path image_id);
  if marked : bool
  then mret (api_error "Image is being uploaded, retry later" None)
  else f image_id.

Definition ttl : Z := 31536000.

(** The [headers] dict of [set_cache_headers]. *)
Definition cache_headers (req : request) : gmap string string :=
  <["Cache-Control" := "public, max-age=" +:+ pretty ttl]>
  (<["Expires" := strftime_gmt (time_now req + ttl)]>
  (<["Last-Modified" := "Thu, 01 Jan 1970 00:00:00 GMT"]> ∅)).

(** [set_cache_headers] *)
Definition set_cache_headers (req : request)
    (f : string -> gmap string string -> M response)
    (image_id : string) : M response :=
  let headers := cache_headers req in
  if bool_decide (is_Some (if_modified_since req))
  then mret (flask_Response "" 304 headers)
  else session_set_modified false ;; f image_id headers.

(** Body of [get_image_layer], under its decorators. *)
Definition get_image_layer_body (image_id : string)
    (headers : gmap string string) : M response :=
  try_except
    (let accel_uri_prefix := nginx_x_accel_redirect in
     let path := image_layer_path image_id in
     let stream_out :=
       (content ← store_stream_read path;
        mret (flask_Response content 200 headers)) in
     match accel_uri_prefix with
     | Some prefix =>
         if nonempty prefix then
           if store_is_local then
             let accel_uri := prefix +:+ "/" +:+ path_name path in
             mret (flask_Response ""  200
                     (<["X-Accel-Redirect" := accel_uri]> headers))
           else stream_out
         else stream_out
     | None => stream_out
     end)
    IOError
    (mret (api_error "Image not found" (Some 404))).

Definition get_image_layer (req : request) : string -> M response :=
  require_completion (set_cache_headers req get_image_layer_body).

(** The stream [put_image_layer] reads: [wsgi.input] for a chunked
    request, [flask.request.stream] otherwise. *)
Definition input_stream_of (req : request) : string :=
  if bool_decide (transfer_encoding req = Some "chunked")
  then wsgi_input req else stream req.

(** The list [csums] of [put_image_layer]: the sha256 digest, then the
    tarsum unless computing it raised. *)
Definition compute_checksums (json_data body : string) : list string :=
  let csums := ["sha256:" +:+ simple_checksum_hexdigest json_data body] in
  match compute_tarsum body json_data with
  | Some tarsum => (csums ++ [tarsum])%list
  | None => csums
  end.

(** [put_image_layer] *)
Definition put_image_layer (req : request) (image_id : string) : M response :=
  found ← attempt (store_get_content (image_json_path image_id)) IOError;
  match found with
  | None => mret (api_error "Image not found" (Some 404))
  | Some json_data =>
      let layer_path := image_layer_path image_id in
      let mark_path := image_mark_path image_id in
      conflict ← (present ← store_exists layer_path;
                  if present : bool
                  then negb <$> store_exists mark_path
                  else mret false);
      if conflict : bool
      then mret (api_error "Image already exists" (Some 409))
      else
        let input_stream := input_stream_of req in
        store_stream_write layer_path input_stream ;;
        let csums := compute_checksums json_data input_stream in
        stored ← attempt
          (store_get_content (image_checksum_path image_id)) IOError;
        match stored with
        | None => session_set_checksum csums ;; mret ack
        | Some checksum =>
            if bool_decide (checksum ∈ csums)
            then store_remove mark_path ;; mret ack
            else mret (api_error "Checksum mismatch, ignoring the layer" None)
        end
  end.

(** [store_checksum]; the result is the error message, if any. *)
Definition store_checksum (image_id checksum : string) : M (option string) :=
  let checksum_parts := split ":" checksum in
  if bool_decide (length checksum_parts ≠ 2%nat)
  then mret (Some "Invalid checksum format")
  else
    store_put_content (image_checksum_path image_id) checksum ;;
    mret None.

(** [put_image_checksum] *)
Definition put_image_checksum (req : request) (image_id : string)
    : M response :=
  match x_docker_checksum req with
  | None => mret (api_error "Missing Image's checksum" None)
  | Some checksum =>
      if negb (nonempty checksum)
      then mret (api_error "Missing Image's checksum" None)
      else
        pending ← session_get_checksum;
        match pending with
        | None | Some [] => mret (api_error "Checksum not found in Cookie" None)
        | Some _ =>
            known ← store_exists (image_json_path image_id);
            if negb known
            then mret (api_error "Image not found" (Some 404))
            else
              let mark_path := image_mark_path image_id in
              marked ← store_exists mark_path;
              if negb marked
              then mret (api_error "Cannot set this image checksum" (Some 409))
              else
                err ← store_checksum image_id checksum;
                match err with
                | Some msg => mret (api_error msg None)
                | None =>
                    again ← session_get_checksum;
                    if bool_decide (checksum ∈ default [] again)
                    then store_remove mark_path ;; mret ack
                    else mret (api_error "Checksum mismatch" None)
                end
        end
  end.

(** Body of [get_image_json], under its decorators. *)
Definition get_image_json_body (image_id : string)
    (headers : gmap string string) : M response :=
  found ← attempt (store_get_content (image_json_path image_id)) IOError;
  match found with
  | None => mret (api_error "Image not found" (Some 404))
  | Some content =>
      headers ← try_except
        (size ← store_get_size (image_layer_path image_id);
         mret (<["X-Docker-Size" := pretty size]> headers))
        OSError
        (mret headers);
      let checksum_path := image_checksum_path image_id in
      has_checksum ← store_exists checksum_path;
      headers ← (if has_checksum : bool
                 then checksum ← store_get_content checksum_path;
                      mret (<["X-Docker-Checksum" := checksum]> headers)
                 else mret headers);
      mret (toolkit_response (Some (JStr content)) (Some headers) true)
  end.

Definition get_image_json (req : request) : string -> M response :=
  require_completion (set_cache_headers req get_image_json_body).

(** [json.loads(s)] inside a handler. *)
Definition loads (s : string) : M json :=
  match json_loads s with
  | Some v => mret v
  | None => raise JSONDecodeError
  end.

(** Body of [get_image_ancestry], under its decorators. *)
Definition get_image_ancestry_body (image_id : string)
    (headers : gmap string string) : M response :=
  found ← attempt (store_get_content (image_ancestry_path image_id)) IOError;
  match found with
  | None => mret (api_error "Image not found" (Some 404))
  | Some content =>
      chain ← loads content;
      mret (toolkit_response (Some chain) (Some headers) false)
  end.

Definition get_image_ancestry (req : request) : string -> M response :=
  require_completion (set_cache_headers req get_image_ancestry_body).

(** [generate_ancestry]; [parent_id] is what [data.get('parent')] gave,
    with [JNull] for Python's [None]. *)
Definition generate_ancestry (image_id : string) (parent_id : json) : M unit :=
  if negb (truthy parent_id)
  then store_put_content (image_ancestry_path image_id)
         (json_dumps (JArr [JStr image_id]))
  else
    content ← store_get_content (image_ancestry_path (format_id parent_id));
    chain ← loads content;
    match chain with
    | JArr items =>
        store_put_content (image_ancestry_path image_id)
          (json_dumps (JArr (JStr image_id :: items)))
    | _ => raise AttributeError
    end.

(** [check_images_list] *)
Definition check_images_list (image_id : string) : M bool :=
  full_repos_name ← session_get_repository;
  match full_repos_name with
  | None => mret true
  | Some name =>
      if negb (nonempty name) then mret true
      else
        found ← attempt
          (content ← store_get_content (images_list_path (split "/" name));
           loads content)
          IOError;
        match found with
        | None => mret false
        | Some images_list => lift (py_in image_id images_list)
        end
  end.

Definition is_dict (v : json) : bool :=
  match v with JObj _ => true | _ => false end.

Definition fields_of (v : json) : list (string * json) :=
  match v with JObj fields => fields | _ => [] end.

(** [put_image_json].  When [json.loads] raises, the [except] clause only
    passes, and the next statement reads the local [data] that was never
    bound. *)
Definition put_image_json (req : request) (image_id : string) : M response :=
  match json_loads (data req) with
  | None => raise UnboundLocalError
  | Some doc =>
      if negb (truthy doc) || negb (is_dict doc)
      then mret (api_error "Invalid JSON" None)
      else
        match dict_get "id" (fields_of doc) with
        | None => mret (api_error "Missing key `id' in JSON" None)
        | Some doc_id =>
            let checksum := x_docker_checksum req in
            err ← match checksum with
                  | Some c =>
                      if nonempty c then store_checksum image_id c
                      else store_remove (image_checksum_path image_id) ;;
                           mret None
                  | None =>
                      store_remove (image_checksum_path image_id) ;;
                      mret None
                  end;
            match err with
            | Some msg => mret (api_error msg None)
            | None =>
                if negb (str_eq_json image_id doc_id)
                then mret (api_error "JSON data contains invalid id" None)
                else
                  listed ← check_images_list image_id;
                  if negb listed
                  then mret (api_error
                    "This image does not belong to the repository" None)
                  else
                    let parent_id :=
                      default JNull (dict_get "parent" (fields_of doc)) in
                    orphan ← (if truthy parent_id
                              then negb <$> store_exists
                                     (image_json_path (format_id parent_id))
                              else mret false);
                    if orphan : bool
                    then mret (api_error
                      "Image depends on a non existing parent" None)
                    else
                      let json_path := image_json_path image_id in
                      let mark_path := image_mark_path image_id in
                      conflict ← (present ← store_exists json_path;
                                  if present : bool
                                  then negb <$> store_exists mark_path
                                  else mret false);
                      if conflict : bool
                      then mret (api_error "Image already exists" (Some 409))
                      else
                        store_put_content mark_path "true" ;;
                        store_put_content json_path (data req) ;;
                        generate_ancestry image_id parent_id ;;
                        mret ack
            end
        end
  end.

(** The six routes of the module. *)
Inductive endpoint : Type :=
  | GET_layer | PUT_layer | PUT_checksum | GET_json | GET_ancestry | PUT_json.

Definition serve (e : endpoint) : request -> string -> M response :=
  match e with
  | GET_layer => get_image_layer
  | PUT_layer => put_image_layer
  | PUT_checksum => put_image_checksum
  | GET_json => get_image_json
  | GET_ancestry => get_image_ancestry
  | PUT_json => put_image_json
  end.

End Handlers.

(** ** Vocabulary of the statements *)

(** [len(checksum.split(':')) == 2], the format [store_checksum] asks for. *)
Definition well_formed (checksum : string) : Prop :=
  length (split ":" checksum) = 2%nat.

#[global] Instance well_formed_dec c : Decision (well_formed c).
Proof. unfold well_formed. apply _. Defined.

Definition write (p : path) (c : string) (st : state) : state :=
  mk_state (<[p := c]> (store st)) (session st).

Definition erase (p : path) (st : state) : state :=
  mk_state (delete p (store st)) (session st).

Definition marked (st : state) (image_id : string) : Prop :=
  is_Some (store st !! image_mark_path image_id).

(** A computation keeps a property of the store, however it ends. *)
Definition preserves {A} (P : gmap path string -> Prop) (m : M A) : Prop :=
  forall st, P (store st) -> P (store (m st).2).

(** The error a failed comparison answers with on each route. *)
Definition checksum_mismatch (e : endpoint) : response :=
  api_error
    match e with
    | PUT_layer => "Checksum mismatch, ignoring the layer"
    | _ => "Checksum mismatch"
    end None.

(** A push reaches its checksum comparison, with [declared] the checksum
    the client declared and [digests] the list it is looked up in:
    - a layer push, when the metadata exists, the write-collision rule
      lets it through and a checksum is stored; the list is the one the
      push computes from the metadata and the stream;
    - a checksum push, when the header is a well-formed checksum, the
      session carries a non-empty digest list, and both the metadata and
      the marker exist; the list is the one in the session. *)
Inductive verifies `{External} (req : request) (image_id : string)
    (st : state) : endpoint -> string -> list string -> Prop :=
  | verifies_layer json_data declared :
      store st !! image_json_path image_id = Some json_data ->
      (is_Some (store st !! image_layer_path image_id) ->
       marked st image_id) ->
      store st !! image_checksum_path image_id = Some declared ->
      verifies req image_id st PUT_layer declared
        (compute_checksums json_data (input_stream_of req))
  | verifies_checksum declared digests :
      x_docker_checksum req = Some declared ->
      well_formed declared ->
      s_checksum (session st) = Some digests ->
      digests <> [] ->
      is_Some (store st !! image_json_path image_id) ->
      marked st image_id ->
      verifies req image_id st PUT_checksum declared digests.

(** A metadata push passes every check that precedes the write-collision
    rule: the body decodes to an object whose [id] is the image, a
    checksum header, if any, is empty or well formed, the repository
    lists the image, and a parent, if any, has its metadata stored. *)
Record valid_metadata `{External} (req : request) (image_id : string)
    (st : state) (fields : list (string * json)) : Prop := {
  vm_decodes : json_loads (data req) = Some (JObj fields);
  vm_id : dict_get "id" fields = Some (JStr image_id);
  vm_checksum : forall c,
    x_docker_checksum req = Some c -> c = "" \/ well_formed c;
  vm_listed : (check_images_list image_id st).1 = Ok true;
  vm_parent :
    let parent_id := default JNull (dict_get "parent" fields) in
    truthy parent_id = true ->
    is_Some (store st !! image_json_path (format_id parent_id)) }.

(** The state after the checksum step of [put_image_json]: the header's
    checksum stored, or the stored one removed when there is no header. *)
Definition checksum_step (req : request) (image_id : string)
    (st : state) : state :=
  match x_docker_checksum req with
  | Some c =>
      if nonempty c then write (image_checksum_path image_id) c st
      else erase (image_checksum_path image_id) st
  | None => erase (image_checksum_path image_id) st
  end.

(** The codec gives back the document it printed. *)
Definition round_trips `{External} (v : json) : Prop :=
  json_loads (json_dumps v) = Some v.

(** The chain stored for an image, decoded. *)
Definition ancestry `{External} (st : state) (image_id : string)
    : option (list json) :=
  match store st !! image_ancestry_path image_id with
  | Some content =>
      match json_loads content with
      | Some (JArr items) => Some items
      | _ => None
      end
  | None => None
  end.

(** The chain [generate_ancestry] starts from: that of the parent, and
    the empty one when there is no parent. *)
Definition parent_chain `{External} (st : state) (parent_id : json)
    : option (list json) :=
  if truthy parent_id then ancestry st (format_id parent_id) else Some [].

(** [data.get('parent')] on the decoded fields. *)
Definition parent_of (fields : list (string * json)) : json :=
  default JNull (dict_get "parent" fields).

Definition conflict_409 : response :=
  api_error "Image already exists" (Some 409).

(** ** A concrete deployment

    One instance of the collaborators, used to run the handlers on
    explicit stores: a JSON printer, a decoder that inverts it on the
    documents below, placeholder digests and a local store without
    accelerated redirect. *)
Module Fixture.

Definition dq : string := String "034"%char EmptyString.

Definition quoted (s : string) : string := dq +:+ s +:+ dq.

Fixpoint render (v : json) : string :=
  match v with
  | JNull => "null"
  | JBool b => if b then "true" else "false"
  | JNum n => pretty n
  | JStr s => quoted s
  | JArr items =>
      "[" +:+
      (fix go (l : list json) : string :=
         match l with
         | [] => ""
         | [x] => render x
         | x :: l' => render x +:+ ", " +:+ go l'
         end) items +:+ "]"
  | JObj fields =>
      "{" +:+
      (fix go (l : list (string * json)) : string :=
         match l with
         | [] => ""
         | [(k, x)] => quoted k +:+ ": " +:+ render x
         | (k, x) :: l' => quoted k +:+ ": " +:+ render x +:+ ", " +:+ go l'
         end) fields +:+ "}"
  end.

Definition documents : list json :=
  [ JObj [("id", JStr "A")];
    JObj [("id", JStr "B"); ("parent", JStr "A")];
    JObj [("id", JStr "A"); ("parent", JStr "A")];
    JObj [("id", JStr "Z")];
    JArr [JStr "A"];
    JArr [JStr "B"; JStr "A"];
    JArr [JStr "A"; JStr "A"] ].

Definition parse (s : string) : option json :=
  find (fun v => String.eqb (render v) s) documents.

Definition text_of (v : json) : string :=
  match v with JStr s => s | _ => render v end.

Definition name_of (p : path) : string :=
  match p with
  | ImagePath b i =>
      "images/" +:+ i +:+ "/" +:+
      match b with
      | Json => "json" | Layer => "layer" | Checksum => "_checksum"
      | Mark => "_inprogress" | Ancestry => "ancestry"
      end
  | ImagesList parts =>
      "repositories/" +:+ String.concat "/" parts +:+ "/_images_list"
  end.

Definition ext : External := {|
  json_loads := parse;
  json_dumps := render;
  format_id := text_of;
  path_name := name_of;
  strftime_gmt := fun t => pretty t;
  simple_checksum_hexdigest := fun json_data body => "00" +:+ body;
  compute_tarsum := fun body json_data =>
    if String.eqb body "" then None else Some ("tarsum+sha256:11" +:+ body);
  nginx_x_accel_redirect := None;
  store_is_local := true |}.

Definition no_session : session_t := mk_session None None false.

Definition plain (body : string) (checksum : option string) : request :=
  mk_request checksum None None body body "" 0.

Definition conditional : request :=
  mk_request None (Some "Thu, 01 Jan 1970 00:00:00 GMT") None "" "" "" 0.

(** Image A, complete, with its checksum. *)
Definition complete_A : state :=
  mk_state
    (<[image_json_path "A" := render (JObj [("id", JStr "A")])]>
     (<[image_layer_path "A" := "bytes"]>
     (<[image_checksum_path "A" := "sha256:00bytes"]>
     (<[image_ancestry_path "A" := render (JArr [JStr "A"])]> ∅))))
    no_session.

(** Image A after its metadata push: marked, no layer yet. *)
Definition started_A : state :=
  mk_state
    (<[image_json_path "A" := render (JObj [("id", JStr "A")])]>
     (<[image_mark_path "A" := "true"]>
     (<[image_ancestry_path "A" := render (JArr [JStr "A"])]> ∅)))
    no_session.

(** Image A marked, with a checksum declared at the metadata push. *)
Definition declared_A (checksum : string) : state :=
  write (image_checksum_path "A") checksum started_A.

(** Image A marked, its layer pushed with the comparison deferred. *)
Definition deferred_A : state :=
  mk_state (<[image_layer_path "A" := "bytes"]> (store started_A))
    (mk_session (Some ["sha256:00bytes"; "tarsum+sha256:11bytes"]) None true).

End Fixture.

(** ** Further vocabulary and deployments *)

(** The state a served read leaves: the one it found, with the session's
    [modified] flag down. *)
Definition unmodified (st : state) : state :=
  mk_state (store st)
    (mk_session (s_checksum (session st)) (s_repository (session st)) false).

(** [get_image_layer] answers with a redirect for the front-end proxy: a
    non-empty prefix is configured and the store is a [LocalStorage]. *)
Definition accelerated `{External} : bool :=
  match nginx_x_accel_redirect with
  | Some prefix => nonempty prefix && store_is_local
  | None => false
  end.

(** Occurrences of a character in a string. *)
Fixpoint count_char (c : ascii) (s : string) : nat :=
  match s with
  | EmptyString => 0%nat
  | String c' s' =>
      ((if decide (c' = c) then 1 else 0) + count_char c s')%nat
  end.

(** The responses of a checksum push that was stopped by a guard. *)
Definition checksum_guard_error (r : response) : Prop :=
  r = api_error "Missing Image's checksum" None
  \/ r = api_error "Checksum not found in Cookie" None
  \/ r = api_error "Image not found" (Some 404)
  \/ r = api_error "Cannot set this image checksum" (Some 409)
  \/ r = api_error "Invalid checksum format" None.

(** Every marked image has its metadata stored. *)
Definition marked_have_json (s : gmap path string) : Prop :=
  forall image_id,
    is_Some (s !! image_mark_path image_id) ->
    is_Some (s !! image_json_path image_id).

Module Variants.

(** The fixture behind a proxy that serves layers itself. *)
Definition behind_proxy : External := {|
  json_loads := Fixture.parse;
  json_dumps := Fixture.render;
  format_id := Fixture.text_of;
  path_name := Fixture.name_of;
  strftime_gmt := fun t => pretty t;
  simple_checksum_hexdigest := fun json_data body => "00" +:+ body;
  compute_tarsum := fun body json_data => None;
  nginx_x_accel_redirect := Some "/protected";
  store_is_local := true |}.

(** A session in which the gate established the repository [lib/app]. *)
Definition in_repository : session_t := mk_session None (Some "lib/app") false.

(** Image A complete, and the repository [lib/app] listing A only. *)
Definition listed_A : state :=
  mk_state
    (<[images_list_path ["lib"; "app"] := Fixture.render (JArr [JStr "A"])]>
       (store Fixture.complete_A))
    in_repository.

(** Image B marked with parent A, but A has no ancestry blob. *)
Definition broken_parent : state :=
  mk_state
    (<[image_json_path "A" := Fixture.render (JObj [("id", JStr "A")])]> ∅)
    Fixture.no_session.

End Variants.

(** * Properties *)

(** ** Stepping through the monad *)

Section Steps.
Context {A B : Type}.

Lemma bind_ok (m : M A) (k : A -> M B) st a st' :
  m st = (Ok a, st') -> (m ≫= k) st = k a st'.
Proof. intros E. unfold mbind, M_bind. by rewrite E. Qed.

Lemma bind_raise (m : M A) (k : A -> M B) st e st' :
  m st = (Raise e, st') -> (m ≫= k) st = (Raise e, st').
Proof. intros E. unfold mbind, M_bind. by rewrite E. Qed.

Lemma attempt_get_some p st c :
  store st !! p = Some c ->
  attempt (store_get_content p) IOError st = (Ok (Some c), st).
Proof.
  intros E. unfold attempt, try_except, fmap, M_fmap, store_get_content.
  by rewrite E.
Qed.

Lemma attempt_get_none p st :
  store st !! p = None ->
  attempt (store_get_content p) IOError st = (Ok None, st).
Proof.
  intros E. unfold attempt, try_except, fmap, M_fmap, store_get_content.
  by rewrite E.
Qed.

End Steps.

Lemma exists_true p st :
  is_Some (store st !! p) -> store_exists p st = (Ok true, st).
Proof. intros E. unfold store_exists. by rewrite bool_decide_true. Qed.

Lemma exists_false p st :
  store st !! p = None -> store_exists p st = (Ok false, st).
Proof.
  intros E. unfold store_exists. rewrite bool_decide_false; [done|].
  rewrite E. by intros [? ?].
Qed.

(** A marked image stops at [require_completion], whatever it wraps. *)
Lemma require_completion_marked (f : string -> M response) image_id st :
  is_Some (store st !! image_mark_path image_id) ->
  require_completion f image_id st
  = (Ok (api_error "Image is being uploaded, retry later" None), st).
Proof.
  intros E. unfold require_completion.
  by rewrite (bind_ok _ _ _ _ _ (exists_true _ _ E)).
Qed.

Lemma require_completion_unmarked (f : string -> M response) image_id st :
  store st !! image_mark_path image_id = None ->
  require_completion f image_id st = f image_id st.
Proof.
  intros E. unfold require_completion.
  by rewrite (bind_ok _ _ _ _ _ (exists_false _ _ E)).
Qed.

(** A conditional request stops at [set_cache_headers]. *)
Lemma set_cache_headers_conditional `{External} req f image_id st :
  is_Some (if_modified_since req) ->
  set_cache_headers req f image_id st
  = (Ok (flask_Response "" 304 (cache_headers req)), st).
Proof. intros E. unfold set_cache_headers. by rewrite bool_decide_true. Qed.

(** ** C1: reads of a marked image *)

(** C1. Whenever the [mark] blob of an image is present in the store,
    each of the three read endpoints (layer, json, ancestry) answers
    with the error [Image is being uploaded, retry later], raised with
    no explicit status code (so not the 404 of a missing image), leaves
    the state as it was, and so returns no layer, json or ancestry
    content. *)
Theorem marked_image_reads_incomplete `{External} req image_id st :
  is_Some (store st !! image_mark_path image_id) ->
  let incomplete := api_error "Image is being uploaded, retry later" None in
  get_image_layer req image_id st = (Ok incomplete, st)
  /\ get_image_json req image_id st = (Ok incomplete, st)
  /\ get_image_ancestry req image_id st = (Ok incomplete, st).
Proof.
  intros E incomplete.
  unfold get_image_layer, get_image_json, get_image_ancestry, incomplete.
  by rewrite !require_completion_marked.
Qed.

Lemma marked_image_reads_incomplete_witness :
  let incomplete := api_error "Image is being uploaded, retry later" None in
  @get_image_layer Fixture.ext (Fixture.plain "" None) "A" Fixture.started_A
    = (Ok incomplete, Fixture.started_A)
  /\ @get_image_json Fixture.ext (Fixture.plain "" None) "A" Fixture.started_A
    = (Ok incomplete, Fixture.started_A)
  /\ @get_image_ancestry Fixture.ext (Fixture.plain "" None) "A"
       Fixture.started_A
    = (Ok incomplete, Fixture.started_A).
Proof.
  apply (@marked_image_reads_incomplete Fixture.ext).
  exists "true". reflexivity.
Defined.

(** ** C10: conditional reads *)

(** C10. For a read request that carries [If-Modified-Since], when the
    image has no [mark] blob, each of the three read endpoints answers
    304 with the cache headers and an empty body, whatever else the
    store holds for the image; the store is not consulted beyond the
    marker, so an image that was never uploaded gets 304 as well. *)
Theorem conditional_read_is_304 `{External} req image_id st :
  is_Some (if_modified_since req) ->
  store st !! image_mark_path image_id = None ->
  let not_modified := flask_Response "" 304 (cache_headers req) in
  get_image_layer req image_id st = (Ok not_modified, st)
  /\ get_image_json req image_id st = (Ok not_modified, st)
  /\ get_image_ancestry req image_id st = (Ok not_modified, st).
Proof.
  intros Hcond Hmark not_modified.
  unfold get_image_layer, get_image_json, get_image_ancestry, not_modified.
  rewrite !require_completion_unmarked by done.
  by rewrite !set_cache_headers_conditional.
Qed.

Lemma conditional_read_is_304_witness :
  let st := mk_state ∅ Fixture.no_session in
  let not_modified :=
    flask_Response "" 304 (@cache_headers Fixture.ext Fixture.conditional) in
  @get_image_layer Fixture.ext Fixture.conditional "never" st
    = (Ok not_modified, st)
  /\ @get_image_json Fixture.ext Fixture.conditional "never" st
    = (Ok not_modified, st)
  /\ @get_image_ancestry Fixture.ext Fixture.conditional "never" st
    = (Ok not_modified, st).
Proof.
  apply (@conditional_read_is_304 Fixture.ext).
  - exists "Thu, 01 Jan 1970 00:00:00 GMT". reflexivity.
  - reflexivity.
Defined.

(** ** The checksum comparison *)

Lemma well_formed_nonempty c : well_formed c -> nonempty c = true.
Proof. by destruct c. Qed.

Lemma store_checksum_well_formed `{External} image_id c st :
  well_formed c ->
  store_checksum image_id c st
  = (Ok None, write (image_checksum_path image_id) c st).
Proof.
  intros W. unfold store_checksum.
  rewrite bool_decide_false by (intros N; exact (N W)).
  reflexivity.
Qed.

Lemma store_checksum_malformed `{External} image_id c st :
  ~ well_formed c ->
  store_checksum image_id c st = (Ok (Some "Invalid checksum format"), st).
Proof. intros W. unfold store_checksum. by rewrite bool_decide_true. Qed.

(** A checksum push that reaches the comparison: the declared checksum is
    stored first, and the marker goes only if the session's list holds
    it. *)
Lemma put_image_checksum_compares `{External} req image_id st declared digests :
  verifies req image_id st PUT_checksum declared digests ->
  put_image_checksum req image_id st
  = if bool_decide (declared ∈ digests)
    then (Ok ack,
          erase (image_mark_path image_id)
            (write (image_checksum_path image_id) declared st))
    else (Ok (api_error "Checksum mismatch" None),
          write (image_checksum_path image_id) declared st).
Proof.
  inversion 1 as [|c ds Hhdr Hwf Hses Hne Hjson Hmark]; subst.
  unfold put_image_checksum. rewrite Hhdr, (well_formed_nonempty _ Hwf).
  cbn [negb].
  assert (session_get_checksum st = (Ok (Some digests), st)) as Hget
    by (unfold session_get_checksum; by rewrite Hses).
  rewrite (bind_ok _ _ _ _ _ Hget).
  destruct digests as [|d ds']; [done|].
  rewrite (bind_ok _ _ _ _ _ (exists_true _ _ Hjson)). cbn [negb].
  rewrite (bind_ok _ _ _ _ _ (exists_true _ _ Hmark)). cbn [negb].
  rewrite (bind_ok _ _ _ _ _ (store_checksum_well_formed _ _ _ Hwf)).
  unfold mbind at 1, M_bind at 1, session_get_checksum at 1.
  cbn [session write]. rewrite Hses. cbn [default from_option id].
  by destruct (bool_decide (declared ∈ d :: ds')).
Qed.

(** A layer push that reaches the comparison: the stream is stored first,
    and the marker goes only if the computed list holds the stored
    checksum. *)
Lemma put_image_layer_compares `{External} req image_id st declared digests :
  verifies req image_id st PUT_layer declared digests ->
  put_image_layer req image_id st
  = if bool_decide (declared ∈ digests)
    then (Ok ack,
          erase (image_mark_path image_id)
            (write (image_layer_path image_id) (input_stream_of req) st))
    else (Ok (api_error "Checksum mismatch, ignoring the layer" None),
          write (image_layer_path image_id) (input_stream_of req) st).
Proof.
  inversion 1 as [json_data c Hjson Hrule Hsum|]; subst.
  unfold put_image_layer.
  rewrite (bind_ok _ _ _ _ _ (attempt_get_some _ _ _ Hjson)).
  assert ((present ← store_exists (image_layer_path image_id);
           if present : bool
           then negb <$> store_exists (image_mark_path image_id)
           else mret false) st = (Ok false, st)) as Hconflict.
  { destruct (store st !! image_layer_path image_id) as [l|] eqn:Hl.
    - rewrite (bind_ok _ _ _ _ _ (exists_true _ _ (mk_is_Some _ _ Hl))).
      unfold fmap, M_fmap.
      by rewrite (exists_true _ _ (Hrule (mk_is_Some _ _ eq_refl))).
    - by rewrite (bind_ok _ _ _ _ _ (exists_false _ _ Hl)). }
  rewrite (bind_ok _ _ _ _ _ Hconflict).
  unfold store_stream_write.
  unfold mbind at 1, M_bind at 1, store_put_content at 1.
  fold (write (image_layer_path image_id) (input_stream_of req) st).
  assert (store (write (image_layer_path image_id) (input_stream_of req) st)
            !! image_checksum_path image_id = Some declared) as Hsum'.
  { cbn [store write]. by rewrite lookup_insert_ne. }
  rewrite (bind_ok _ _ _ _ _ (attempt_get_some _ _ _ Hsum')).
  by destruct (bool_decide _).
Qed.

(** A layer push with no checksum stored defers the comparison: the
    computed list travels in the session and the marker stays. *)
Lemma put_image_layer_defers `{External} req image_id st json_data :
  store st !! image_json_path image_id = Some json_data ->
  (is_Some (store st !! image_layer_path image_id) -> marked st image_id) ->
  store st !! image_checksum_path image_id = None ->
  put_image_layer req image_id st
  = (Ok ack,
     mk_state (<[image_layer_path image_id := input_stream_of req]> (store st))
       (mk_session
          (Some (compute_checksums json_data (input_stream_of req)))
          (s_repository (session st)) true)).
Proof.
  intros Hjson Hrule Hsum. unfold put_image_layer.
  rewrite (bind_ok _ _ _ _ _ (attempt_get_some _ _ _ Hjson)).
  assert ((present ← store_exists (image_layer_path image_id);
           if present : bool
           then negb <$> store_exists (image_mark_path image_id)
           else mret false) st = (Ok false, st)) as Hconflict.
  { destruct (store st !! image_layer_path image_id) as [l|] eqn:Hl.
    - rewrite (bind_ok _ _ _ _ _ (exists_true _ _ (mk_is_Some _ _ Hl))).
      unfold fmap, M_fmap.
      by rewrite (exists_true _ _ (Hrule (mk_is_Some _ _ eq_refl))).
    - by rewrite (bind_ok _ _ _ _ _ (exists_false _ _ Hl)). }
  rewrite (bind_ok _ _ _ _ _ Hconflict).
  unfold store_stream_write.
  unfold mbind at 1, M_bind at 1, store_put_content at 1.
  fold (write (image_layer_path image_id) (input_stream_of req) st).
  assert (store (write (image_layer_path image_id) (input_stream_of req) st)
            !! image_checksum_path image_id = None) as Hsum'.
  { cbn [store write]. by rewrite lookup_insert_ne. }
  by rewrite (bind_ok _ _ _ _ _ (attempt_get_none _ _ Hsum')).
Qed.

(** ** C3: acceptance is membership in the digest list *)

(** C3. For a layer push or a checksum push that reaches its checksum
    comparison, the declared checksum is accepted exactly when it is in
    the digest list (for a layer push the list computed from the stream:
    the sha256 digest, and the tarsum when it could be computed; for a
    checksum push the list a deferring layer push left in the session):
    if it is in the list the push is acknowledged and the marker is
    gone, and if it is not the push answers with the checksum-mismatch
    error. *)
Theorem checksum_accepted_iff_in_digest_set `{External}
    e req image_id st declared digests :
  verifies req image_id st e declared digests ->
  (declared ∈ digests <-> (serve e req image_id st).1 = Ok ack)
  /\ (declared ∉ digests <->
      (serve e req image_id st).1 = Ok (checksum_mismatch e))
  /\ (declared ∈ digests -> ~ marked (serve e req image_id st).2 image_id).
Proof.
  intros V.
  assert (serve e req image_id st
          = if bool_decide (declared ∈ digests)
            then (Ok ack,
                  erase (image_mark_path image_id) (serve e req image_id st).2)
            else (Ok (checksum_mismatch e), (serve e req image_id st).2))
    as E.
  { destruct V as [json_data c Hjson Hrule Hsum|c ds Hhdr Hwf Hses Hne Hj Hm];
      cbn [serve].
    - rewrite (put_image_layer_compares req image_id st c _)
        by by constructor.
      case_bool_decide; cbn [snd]; [|done].
      unfold erase; cbn [store session]. by rewrite delete_delete_eq.
    - rewrite (put_image_checksum_compares req image_id st c ds)
        by by constructor.
      case_bool_decide; cbn [snd]; [|done].
      unfold erase; cbn [store session]. by rewrite delete_delete_eq. }
  rewrite E. case_bool_decide as Hin; cbn [fst snd].
  - split_and!; [done| |].
    + split; [done|]. unfold checksum_mismatch. by destruct e.
    + intros _ [m Hm]. unfold erase in Hm; cbn [store] in Hm.
      by rewrite lookup_delete_eq in Hm.
  - split_and!; [|done|done].
    split; [done|]. unfold checksum_mismatch, ack. by destruct e.
Qed.

Lemma checksum_accepted_iff_in_digest_set_witness :
  let req := Fixture.plain "bytes" None in
  let st := Fixture.declared_A "sha256:00bytes" in
  let digests := ["sha256:00bytes"; "tarsum+sha256:11bytes"] in
  ("sha256:00bytes" ∈ digests <->
     (@serve Fixture.ext PUT_layer req "A" st).1 = Ok ack)
  /\ ("sha256:00bytes" ∉ digests <->
     (@serve Fixture.ext PUT_layer req "A" st).1
     = Ok (checksum_mismatch PUT_layer))
  /\ ("sha256:00bytes" ∈ digests ->
      ~ marked (@serve Fixture.ext PUT_layer req "A" st).2 "A").
Proof.
  intros req st digests.
  apply (@checksum_accepted_iff_in_digest_set Fixture.ext PUT_layer req "A" st
           "sha256:00bytes" digests).
  apply (@verifies_layer Fixture.ext req "A" st
           (Fixture.render (JObj [("id", JStr "A")])) "sha256:00bytes").
  - reflexivity.
  - intros _. exists "true". reflexivity.
  - reflexivity.
Defined.

(** ** C9: a mismatching checksum push still stores the checksum *)

(** C9. A checksum push whose header is a well-formed checksum and that
    passes the metadata and marker checks, but whose checksum is not in
    the session's digest list, answers [Checksum mismatch] after it has
    written the declared checksum: the store of the final state is the
    initial one with the image's checksum blob set to the declared
    value. *)
Theorem mismatched_checksum_is_stored `{External}
    req image_id st declared digests :
  verifies req image_id st PUT_checksum declared digests ->
  declared ∉ digests ->
  (put_image_checksum req image_id st).1
  = Ok (api_error "Checksum mismatch" None)
  /\ store (put_image_checksum req image_id st).2
     = <[image_checksum_path image_id := declared]> (store st)
  /\ store (put_image_checksum req image_id st).2
       !! image_checksum_path image_id = Some declared.
Proof.
  intros V Hout.
  rewrite (put_image_checksum_compares _ _ _ _ _ V).
  rewrite bool_decide_false by done. cbn [fst snd write store].
  split_and!; [done|done|]. apply lookup_insert_eq.
Qed.

Lemma mismatched_checksum_is_stored_witness :
  let req := Fixture.plain "" (Some "sha256:ff") in
  (put_image_checksum req "A" Fixture.deferred_A).1
  = Ok (api_error "Checksum mismatch" None)
  /\ store (put_image_checksum req "A" Fixture.deferred_A).2
     = <[image_checksum_path "A" := "sha256:ff"]> (store Fixture.deferred_A)
  /\ store (put_image_checksum req "A" Fixture.deferred_A).2
       !! image_checksum_path "A" = Some "sha256:ff".
Proof.
  intros req.
  apply (@mismatched_checksum_is_stored Fixture.ext req "A" Fixture.deferred_A
           "sha256:ff" ["sha256:00bytes"; "tarsum+sha256:11bytes"]).
  - apply verifies_checksum.
    + reflexivity.
    + reflexivity.
    + reflexivity.
    + discriminate.
    + exists (Fixture.render (JObj [("id", JStr "A")])). reflexivity.
    + exists "true". reflexivity.
  - intros Hin. apply list_elem_of_In in Hin. simpl in Hin.
    destruct Hin as [Heq|[Heq|[]]]; discriminate Heq.
Defined.

(** ** What a computation keeps in the store *)

Section Preservation.
Context (P : gmap path string -> Prop).

Lemma preserves_ret {A} (a : A) : preserves P (mret a).
Proof. by intros st. Qed.

Lemma preserves_raise {A} e : preserves P (@raise A e).
Proof. by intros st. Qed.

Lemma preserves_lift {A} (r : result A) : preserves P (lift r).
Proof. by intros st. Qed.

Lemma preserves_bind {A B} (m : M A) (k : A -> M B) :
  preserves P m -> (forall a, preserves P (k a)) -> preserves P (m ≫= k).
Proof.
  intros Hm Hk st HP. specialize (Hm st HP).
  unfold mbind, M_bind. destruct (m st) as [[a|e] st']; [|done].
  by apply Hk.
Qed.

Lemma preserves_fmap {A B} (f : A -> B) (m : M A) :
  preserves P m -> preserves P (f <$> m).
Proof.
  intros Hm st HP. specialize (Hm st HP).
  unfold fmap, M_fmap. by destruct (m st) as [[a|e] st'].
Qed.

Lemma preserves_try_except {A} (m h : M A) e :
  preserves P m -> preserves P h -> preserves P (try_except m e h).
Proof.
  intros Hm Hh st HP. specialize (Hm st HP).
  unfold try_except. destruct (m st) as [[a|e'] st']; [done|].
  case_decide; [by apply Hh|done].
Qed.

Lemma preserves_attempt {A} (m : M A) e :
  preserves P m -> preserves P (attempt m e).
Proof.
  intros Hm. apply preserves_try_except;
    [by apply preserves_fmap|apply preserves_ret].
Qed.

Lemma preserves_exists p : preserves P (store_exists p).
Proof. by intros st. Qed.

Lemma preserves_get_content p : preserves P (store_get_content p).
Proof. intros st HP. unfold store_get_content. by destruct (store st !! p). Qed.

Lemma preserves_stream_read p : preserves P (store_stream_read p).
Proof. apply preserves_get_content. Qed.

Lemma preserves_get_size p : preserves P (store_get_size p).
Proof. intros st HP. unfold store_get_size. by destruct (store st !! p). Qed.

Lemma preserves_session_get_checksum : preserves P session_get_checksum.
Proof. by intros st. Qed.

Lemma preserves_session_get_repository : preserves P session_get_repository.
Proof. by intros st. Qed.

Lemma preserves_session_set_checksum cs : preserves P (session_set_checksum cs).
Proof. by intros st. Qed.

Lemma preserves_session_set_modified b : preserves P (session_set_modified b).
Proof. by intros st. Qed.

Lemma preserves_put_content p c :
  (forall s, P s -> P (<[p := c]> s)) -> preserves P (store_put_content p c).
Proof. intros Hp st HP. by apply Hp. Qed.

Lemma preserves_stream_write p c :
  (forall s, P s -> P (<[p := c]> s)) -> preserves P (store_stream_write p c).
Proof. apply preserves_put_content. Qed.

Lemma preserves_remove p :
  (forall s, P s -> P (delete p s)) -> preserves P (store_remove p).
Proof. intros Hp st HP. by apply Hp. Qed.

Lemma preserves_loads `{External} s : preserves P (loads s).
Proof.
  unfold loads. destruct (json_loads s);
    [apply preserves_ret|apply preserves_raise].
Qed.

End Preservation.

Create HintDb frame discriminated.

#[global] Hint Resolve preserves_ret preserves_raise preserves_lift
  preserves_fmap preserves_try_except preserves_attempt preserves_exists
  preserves_get_content preserves_stream_read preserves_get_size
  preserves_session_get_checksum preserves_session_get_repository
  preserves_session_set_checksum preserves_session_set_modified
  preserves_loads : frame.

(** Walks a handler statement by statement; what is left are the writes
    and removals, each with the side condition that it keeps [P]. *)
Ltac frame :=
  repeat first
    [ apply preserves_bind; [|intros ?]
    | solve [auto with frame]
    | apply preserves_try_except
    | apply preserves_attempt
    | apply preserves_fmap
    | apply preserves_put_content
    | apply preserves_stream_write
    | apply preserves_remove
    | match goal with
      | |- preserves _ (match ?x with _ => _ end) => destruct x
      | |- preserves _ (let _ := _ in _) => cbv zeta
      end ].

(** The read endpoints leave the store as it is. *)
Lemma reads_keep_store `{External} e req image_id S :
  e = GET_layer \/ e = GET_json \/ e = GET_ancestry ->
  preserves (fun s => s = S) (serve e req image_id).
Proof.
  intros [-> | [-> | ->]]; cbn [serve];
    unfold get_image_layer, get_image_json, get_image_ancestry,
      require_completion, set_cache_headers,
      get_image_layer_body, get_image_json_body, get_image_ancestry_body;
    frame.
Qed.

(** A metadata push removes no marker. *)
Lemma put_image_json_keeps_marks `{External} req image_id image_id' :
  preserves (fun s => is_Some (s !! image_mark_path image_id'))
    (put_image_json req image_id).
Proof.
  unfold put_image_json, check_images_list, generate_ancestry, store_checksum.
  frame; intros ? ?;
    rewrite ?lookup_delete_ne by done;
    rewrite ?lookup_insert;
    repeat case_decide; eauto.
Qed.

(** ** The pushes outside their comparison *)

Lemma put_image_layer_missing `{External} req image_id st :
  store st !! image_json_path image_id = None ->
  put_image_layer req image_id st
  = (Ok (api_error "Image not found" (Some 404)), st).
Proof.
  intros Hjson. unfold put_image_layer.
  by rewrite (bind_ok _ _ _ _ _ (attempt_get_none _ _ Hjson)).
Qed.

Lemma put_image_layer_conflict `{External} req image_id st :
  is_Some (store st !! image_json_path image_id) ->
  is_Some (store st !! image_layer_path image_id) ->
  store st !! image_mark_path image_id = None ->
  put_image_layer req image_id st
  = (Ok (api_error "Image already exists" (Some 409)), st).
Proof.
  intros [json_data Hjson] Hlayer Hmark. unfold put_image_layer.
  rewrite (bind_ok _ _ _ _ _ (attempt_get_some _ _ _ Hjson)).
  rewrite (bind_ok (store_exists _ ≫= _) _ st true st); [done|].
  rewrite (bind_ok _ _ _ _ _ (exists_true _ _ Hlayer)).
  unfold fmap, M_fmap. by rewrite (exists_false _ _ Hmark).
Qed.

(** Every layer push either reaches the comparison or removes no marker. *)
Lemma put_image_layer_cases `{External} req image_id st :
  (exists declared digests,
     verifies req image_id st PUT_layer declared digests)
  \/ (forall image_id', marked st image_id' ->
        marked (put_image_layer req image_id st).2 image_id').
Proof.
  destruct (store st !! image_json_path image_id) as [json_data|] eqn:Hjson;
    [|right; intros i Hi; by rewrite put_image_layer_missing].
  destruct (store st !! image_mark_path image_id) as [m|] eqn:Hmark.
  - destruct (store st !! image_checksum_path image_id) as [c|] eqn:Hsum.
    + left. eexists _, _. apply verifies_layer; [done| |done].
      intros _. by exists m.
    + right. intros i Hi.
      rewrite (put_image_layer_defers req image_id st json_data);
        [|done|intros _; by exists m|done].
      unfold marked in *. cbn [store snd].
      by rewrite lookup_insert_ne.
  - destruct (store st !! image_layer_path image_id) as [l|] eqn:Hlayer.
    + right. intros i Hi.
      by rewrite put_image_layer_conflict; [|rewrite Hjson|rewrite Hlayer|].
    + destruct (store st !! image_checksum_path image_id) as [c|] eqn:Hsum.
      * left. eexists _, _. apply verifies_layer; [done| |done].
        rewrite Hlayer. by intros [? ?].
      * right. intros i Hi.
        rewrite (put_image_layer_defers req image_id st json_data);
          [|done|rewrite Hlayer; by intros [? ?]|done].
        unfold marked in *. cbn [store snd].
        by rewrite lookup_insert_ne.
Qed.

(** Every checksum push either reaches the comparison or changes nothing. *)
Lemma put_image_checksum_cases `{External} req image_id st :
  (exists declared digests,
     verifies req image_id st PUT_checksum declared digests)
  \/ (put_image_checksum req image_id st).2 = st.
Proof.
  unfold put_image_checksum.
  destruct (x_docker_checksum req) as [c|] eqn:Hhdr; [|by right].
  destruct (nonempty c) eqn:Hc; cbn [negb]; [|by right].
  unfold mbind at 1, M_bind at 1, session_get_checksum at 1.
  destruct (s_checksum (session st)) as [[|d ds]|] eqn:Hses;
    [by right| |by right].
  destruct (store st !! image_json_path image_id) as [j|] eqn:Hjson;
    [|right; by rewrite (bind_ok _ _ _ _ _ (exists_false _ _ Hjson))].
  destruct (store st !! image_mark_path image_id) as [m|] eqn:Hmark.
  - destruct (decide (well_formed c)) as [Hwf|Hwf].
    + left. exists c, (d :: ds).
      apply verifies_checksum; unfold marked;
        rewrite ?Hjson, ?Hmark; eauto.
    + right.
      rewrite (bind_ok (store_exists _) _ st true st)
        by (apply exists_true; rewrite Hjson; by exists j).
      cbn [negb].
      rewrite (bind_ok (store_exists _) _ st true st)
        by (apply exists_true; rewrite Hmark; by exists m).
      cbn [negb].
      by rewrite (bind_ok _ _ _ _ _ (store_checksum_malformed _ _ _ Hwf)).
  - right.
    rewrite (bind_ok (store_exists _) _ st true st)
      by (apply exists_true; rewrite Hjson; by exists j).
    cbn [negb].
    by rewrite (bind_ok _ _ _ _ _ (exists_false _ _ Hmark)).
Qed.

(** ** C4: the marker goes only on a match *)

(** C4. Whatever the endpoint and the request, if an image was marked
    before and is no longer marked after, then the request was a layer or
    checksum push for that very image, it reached its checksum
    comparison, the declared checksum was in the digest list, and the
    push was acknowledged.  In particular a push whose comparison fails
    leaves the image marked. *)
Theorem mark_removed_only_on_match `{External} e req image_id st image_id' :
  marked st image_id' ->
  (~ marked (serve e req image_id st).2 image_id' ->
   image_id' = image_id
   /\ (e = PUT_layer \/ e = PUT_checksum)
   /\ (serve e req image_id st).1 = Ok ack
   /\ exists declared digests,
        verifies req image_id st e declared digests /\ declared ∈ digests)
  /\ (forall declared digests,
        verifies req image_id st e declared digests ->
        declared ∉ digests ->
        marked (serve e req image_id st).2 image_id').
Proof.
  intros Hm.
  assert (forall declared digests,
            verifies req image_id st e declared digests ->
            serve e req image_id st
            = if bool_decide (declared ∈ digests)
              then (Ok ack,
                    erase (image_mark_path image_id)
                      (write (match e with
                              | PUT_layer => image_layer_path image_id
                              | _ => image_checksum_path image_id
                              end)
                             (match e with
                              | PUT_layer => input_stream_of req
                              | _ => declared
                              end) st))
              else (Ok (checksum_mismatch e),
                    write (match e with
                           | PUT_layer => image_layer_path image_id
                           | _ => image_checksum_path image_id
                           end)
                          (match e with
                           | PUT_layer => input_stream_of req
                           | _ => declared
                           end) st)) as Hcmp.
  { intros c ds V. destruct V; cbn [serve].
    - by erewrite put_image_layer_compares by by constructor.
    - by erewrite put_image_checksum_compares by by constructor. }
  assert (forall p c, p <> image_mark_path image_id' ->
            marked (write p c st) image_id') as Hwrite.
  { intros p c Hp. unfold marked, write; cbn [store].
    by rewrite lookup_insert_ne. }
  split.
  - intros Hgone.
    assert ((exists declared digests,
                verifies req image_id st e declared digests)
            \/ marked (serve e req image_id st).2 image_id') as [V|Hkept].
    { destruct e.
      - right. unfold marked.
        by rewrite (reads_keep_store GET_layer req image_id (store st)
                      ltac:(auto) st eq_refl).
      - destruct (put_image_layer_cases req image_id st); auto.
      - destruct (put_image_checksum_cases req image_id st) as [|E]; auto.
        right. cbn [serve]. by rewrite E.
      - right. unfold marked.
        by rewrite (reads_keep_store GET_json req image_id (store st)
                      ltac:(auto) st eq_refl).
      - right. unfold marked.
        by rewrite (reads_keep_store GET_ancestry req image_id (store st)
                      ltac:(auto) st eq_refl).
      - right. by apply put_image_json_keeps_marks. }
    2: done.
    destruct V as (c & ds & V). rewrite (Hcmp c ds V) in Hgone |- *.
    case_bool_decide as Hin; cbn [fst snd] in *.
    + split_and!; [|destruct V; auto|done|eauto].
      destruct (decide (image_id' = image_id)) as [|Hne]; [done|].
      exfalso. apply Hgone. unfold marked, erase; cbn [store].
      rewrite lookup_delete_ne by (unfold image_mark_path; congruence).
      apply Hwrite. by destruct e.
    + exfalso. apply Hgone, Hwrite. by destruct e.
  - intros c ds V Hout. rewrite (Hcmp c ds V).
    rewrite bool_decide_false by done. cbn [snd].
    apply Hwrite. by destruct e.
Qed.

Lemma mark_removed_only_on_match_witness :
  let req := Fixture.plain "" (Some "sha256:00bytes") in
  let st := Fixture.deferred_A in
  (~ marked (@serve Fixture.ext PUT_checksum req "A" st).2 "A" ->
   "A" = "A"
   /\ (PUT_checksum = PUT_layer \/ PUT_checksum = PUT_checksum)
   /\ (@serve Fixture.ext PUT_checksum req "A" st).1 = Ok ack
   /\ exists declared digests,
        @verifies Fixture.ext req "A" st PUT_checksum declared digests
        /\ declared ∈ digests)
  /\ (forall declared digests,
        @verifies Fixture.ext req "A" st PUT_checksum declared digests ->
        declared ∉ digests ->
        marked (@serve Fixture.ext PUT_checksum req "A" st).2 "A").
Proof.
  intros req st.
  apply (@mark_removed_only_on_match Fixture.ext PUT_checksum req "A" st "A").
  exists "true". reflexivity.
Defined.

(** ** C6: the ancestry chain *)

Lemma ancestry_write `{External} st p content image_id :
  p <> image_ancestry_path image_id ->
  ancestry (write p content st) image_id = ancestry st image_id.
Proof.
  intros Hp. unfold ancestry, write; cbn [store].
  by rewrite lookup_insert_ne.
Qed.

(** With a readable starting chain, [generate_ancestry] returns and its
    one effect is the write of the extended chain. *)
Lemma generate_ancestry_eval `{External} image_id parent_id st chain :
  parent_chain st parent_id = Some chain ->
  generate_ancestry image_id parent_id st
  = (Ok tt,
     write (image_ancestry_path image_id)
       (json_dumps (JArr (JStr image_id :: chain))) st).
Proof.
  intros Hchain. unfold generate_ancestry, parent_chain in *.
  destruct (truthy parent_id); cbn [negb].
  - unfold ancestry in Hchain.
    destruct (store st !! image_ancestry_path (format_id parent_id))
      as [content|] eqn:Hget; [|done].
    assert (store_get_content (image_ancestry_path (format_id parent_id)) st
            = (Ok content, st)) as Hread
      by (unfold store_get_content; by rewrite Hget).
    rewrite (bind_ok _ _ _ _ _ Hread).
    unfold loads, mbind at 1, M_bind at 1.
    destruct (json_loads content) as [[| | | |items|]|]; try done.
    by simplify_eq.
  - by simplify_eq.
Qed.

(** With no parent the blob is the one-element chain. *)
Lemma generate_ancestry_root `{External} image_id parent_id st :
  truthy parent_id = false ->
  generate_ancestry image_id parent_id st
  = (Ok tt,
     write (image_ancestry_path image_id)
       (json_dumps (JArr [JStr image_id])) st).
Proof.
  intros Hp. apply generate_ancestry_eval.
  unfold parent_chain. by rewrite Hp.
Qed.

(** C6. [generate_ancestry(image_id, parent_id)] returns after writing,
    as the image's ancestry blob, the chain it started from with
    [image_id] put in front: with no parent that chain is empty and the
    blob is the one-element list of [image_id]; with a parent it is the
    chain stored for the parent.  Read back through a codec that
    round-trips the written document, the image's chain has [image_id]
    as its head and the parent's chain as its tail; the parent's own
    blob is untouched when the parent is another image. *)
Theorem generate_ancestry_prepends `{External} image_id parent_id st chain :
  parent_chain st parent_id = Some chain ->
  round_trips (JArr (JStr image_id :: chain)) ->
  let st' := (generate_ancestry image_id parent_id st).2 in
  generate_ancestry image_id parent_id st
  = (Ok tt,
     write (image_ancestry_path image_id)
       (json_dumps (JArr (JStr image_id :: chain))) st)
  /\ ancestry st' image_id = Some (JStr image_id :: chain)
  /\ (truthy parent_id = true -> format_id parent_id <> image_id ->
      ancestry st' (format_id parent_id) = Some chain).
Proof.
  intros Hchain Hrt st'.
  pose proof (generate_ancestry_eval image_id parent_id st chain Hchain) as E.
  subst st'. rewrite E. cbn [snd]. split_and!; [done| |].
  - unfold ancestry, write; cbn [store].
    rewrite lookup_insert_eq. unfold round_trips in Hrt. by rewrite Hrt.
  - intros Hp Hne. rewrite ancestry_write
      by (unfold image_ancestry_path; congruence).
    unfold parent_chain in Hchain. by rewrite Hp in Hchain.
Qed.

Lemma generate_ancestry_prepends_witness :
  let st := Fixture.complete_A in
  let st' := (@generate_ancestry Fixture.ext "B" (JStr "A") st).2 in
  @generate_ancestry Fixture.ext "B" (JStr "A") st
  = (Ok tt,
     write (image_ancestry_path "B")
       (Fixture.render (JArr [JStr "B"; JStr "A"])) st)
  /\ @ancestry Fixture.ext st' "B" = Some [JStr "B"; JStr "A"]
  /\ (truthy (JStr "A") = true -> "A" <> "B" ->
      @ancestry Fixture.ext st' "A" = Some [JStr "A"]).
Proof.
  intros st.
  apply (@generate_ancestry_prepends Fixture.ext "B" (JStr "A") st [JStr "A"]).
  - reflexivity.
  - reflexivity.
Defined.

(** ** The metadata push, step by step *)

(** [check_images_list] changes no state, and its answer depends only on
    the session and on the image lists of the store. *)
Lemma check_images_list_eval `{External} image_id st :
  check_images_list image_id st
  = (match s_repository (session st) with
     | None => Ok true
     | Some name =>
         if nonempty name then
           match store st !! ImagesList (split "/" name) with
           | None => Ok false
           | Some content =>
               match json_loads content with
               | None => Raise JSONDecodeError
               | Some images_list => py_in image_id images_list
               end
           end
         else Ok true
     end, st).
Proof.
  unfold check_images_list.
  unfold mbind at 1, M_bind at 1, session_get_repository.
  destruct (s_repository (session st)) as [name|]; [|done].
  destruct (nonempty name); cbn [negb]; [|done].
  unfold attempt, try_except, fmap, M_fmap, mbind, M_bind,
    store_get_content, loads, lift, images_list_path.
  destruct (store st !! ImagesList (split "/" name)) as [content|]; [|done].
  by destruct (json_loads content).
Qed.

Lemma check_images_list_frame `{External} image_id st st' :
  session st' = session st ->
  (forall parts, store st' !! ImagesList parts = store st !! ImagesList parts) ->
  (check_images_list image_id st').1 = (check_images_list image_id st).1.
Proof.
  intros Hses Hlists. rewrite !check_images_list_eval. cbn [fst].
  rewrite Hses. destruct (s_repository (session st)) as [name|]; [|done].
  by rewrite Hlists.
Qed.

Lemma checksum_step_lookup req image_id st p :
  p <> image_checksum_path image_id ->
  store (checksum_step req image_id st) !! p = store st !! p.
Proof.
  intros Hp. unfold checksum_step, write, erase.
  destruct (x_docker_checksum req) as [c|]; [destruct (nonempty c)|];
    cbn [store]; by rewrite ?lookup_insert_ne, ?lookup_delete_ne.
Qed.

Lemma checksum_step_session req image_id st :
  session (checksum_step req image_id st) = session st.
Proof.
  unfold checksum_step, write, erase.
  by destruct (x_docker_checksum req) as [c|]; [destruct (nonempty c)|].
Qed.

(** A metadata push that passes validation: the checksum step runs
    first; then either the write-collision rule answers 409, or the
    marker and the metadata are written and the chain generated. *)
Lemma put_image_json_valid `{External} req image_id st fields :
  valid_metadata req image_id st fields ->
  put_image_json req image_id st
  = let st1 := checksum_step req image_id st in
    if bool_decide (is_Some (store st !! image_json_path image_id)
                    /\ store st !! image_mark_path image_id = None)
    then (Ok conflict_409, st1)
    else (generate_ancestry image_id (parent_of fields) ;; mret ack)
           (write (image_json_path image_id) (data req)
              (write (image_mark_path image_id) "true" st1)).
Proof.
  intros [Hdec Hid Hsum Hlisted Hparent]. cbv zeta in *.
  unfold put_image_json. rewrite Hdec. cbn [truthy is_dict fields_of].
  destruct fields as [|f fields']; [done|]. cbn [negb orb].
  rewrite Hid.
  set (st1 := checksum_step req image_id st).
  assert (match x_docker_checksum req with
          | Some c =>
              if nonempty c then store_checksum image_id c
              else store_remove (image_checksum_path image_id) ;; mret None
          | None => store_remove (image_checksum_path image_id) ;; mret None
          end st = (Ok None, st1)) as Hstep.
  { subst st1. unfold checksum_step.
    destruct (x_docker_checksum req) as [c|] eqn:Hc; [|done].
    destruct (nonempty c) eqn:Hne; [|done].
    destruct (Hsum c eq_refl) as [->|Hwf]; [done|].
    by apply store_checksum_well_formed. }
  rewrite (bind_ok _ _ _ _ _ Hstep).
  assert (str_eq_json image_id (JStr image_id) = true) as ->
    by (unfold str_eq_json; by rewrite bool_decide_true).
  cbn [negb].
  assert (check_images_list image_id st1 = (Ok true, st1)) as Hcheck.
  { rewrite (surjective_pairing (check_images_list image_id st1)).
    rewrite (check_images_list_eval image_id st1) at 2. cbn [snd]. f_equal.
    rewrite <- Hlisted. apply check_images_list_frame.
    - apply checksum_step_session.
    - intros parts. by apply checksum_step_lookup. }
  rewrite (bind_ok _ _ _ _ _ Hcheck). cbn [negb].
  fold (parent_of (f :: fields')) in *.
  assert ((if truthy (parent_of (f :: fields'))
           then negb <$> store_exists
                  (image_json_path (format_id (parent_of (f :: fields'))))
           else mret false) st1 = (Ok false, st1)) as Horphan.
  { destruct (truthy (parent_of (f :: fields'))); [|done].
    unfold fmap, M_fmap. rewrite exists_true; [done|].
    subst st1. rewrite checksum_step_lookup by done. by apply Hparent. }
  rewrite (bind_ok _ _ _ _ _ Horphan).
  assert ((present ← store_exists (image_json_path image_id);
           if present : bool
           then negb <$> store_exists (image_mark_path image_id)
           else mret false) st1
          = (Ok (bool_decide
                   (is_Some (store st !! image_json_path image_id)
                    /\ store st !! image_mark_path image_id = None)), st1))
    as Hconflict.
  { assert (forall p, p <> image_checksum_path image_id ->
              store st1 !! p = store st !! p) as Hsame
      by (intros p Hp; subst st1; by apply checksum_step_lookup).
    destruct (store st !! image_json_path image_id) as [j|] eqn:Hj.
    - rewrite (bind_ok (store_exists _) _ st1 true st1)
        by (apply exists_true; rewrite Hsame, Hj by done; eauto).
      unfold fmap, M_fmap.
      destruct (store st !! image_mark_path image_id) as [m|] eqn:Hm.
      + rewrite exists_true by (rewrite Hsame, Hm by done; eauto).
        rewrite bool_decide_false; [done|]. by intros [_ ?].
      + rewrite exists_false by (by rewrite Hsame, Hm by done).
        by rewrite bool_decide_true by eauto.
    - rewrite (bind_ok (store_exists _) _ st1 false st1)
        by (apply exists_false; by rewrite Hsame, Hj by done).
      rewrite bool_decide_false; [done|]. intros [[? ?] _]. done. }
  rewrite (bind_ok _ _ _ _ _ Hconflict).
  by destruct (bool_decide _).
Qed.

Lemma generate_ancestry_keeps `{External} image_id parent_id p
    (v : option string) :
  p <> image_ancestry_path image_id ->
  preserves (fun s => s !! p = v) (generate_ancestry image_id parent_id).
Proof.
  intros Hp. unfold generate_ancestry.
  frame; intros ? ?; by rewrite lookup_insert_ne.
Qed.

Lemma parent_chain_ext `{External} st st' parent_id :
  (forall i, store st' !! image_ancestry_path i
             = store st !! image_ancestry_path i) ->
  parent_chain st' parent_id = parent_chain st parent_id.
Proof.
  intros Hsame. unfold parent_chain, ancestry. by rewrite Hsame.
Qed.

(** ** C5: the write-collision rule *)

(** C5. The write-collision rule of the two pushes that are subject to
    it.
    - Layer push, metadata present: if the layer blob exists and the
      marker is absent, the answer is 409 [Image already exists] and
      nothing changes; if the marker is present, the push is not a
      conflict, the layer blob becomes the pushed stream, and the push is
      acknowledged unless a stored checksum fails the comparison.
    - Metadata push that passes validation: if the json blob exists and
      the marker is absent, the answer is 409 [Image already exists]; if
      the marker is present, the push is not a conflict, the json blob
      becomes the pushed body, the marker stays, and the push is
      acknowledged once the chain is generated. *)
Theorem write_collision_rule `{External} req image_id st :
  (forall json_data,
     store st !! image_json_path image_id = Some json_data ->
     (is_Some (store st !! image_layer_path image_id) ->
      ~ marked st image_id ->
      put_image_layer req image_id st = (Ok conflict_409, st))
     /\ (marked st image_id ->
         (put_image_layer req image_id st).1 <> Ok conflict_409
         /\ store (put_image_layer req image_id st).2
              !! image_layer_path image_id = Some (input_stream_of req)
         /\ ((forall declared,
                store st !! image_checksum_path image_id = Some declared ->
                declared ∈ compute_checksums json_data (input_stream_of req)) ->
             (put_image_layer req image_id st).1 = Ok ack)))
  /\ (forall fields,
        valid_metadata req image_id st fields ->
        (is_Some (store st !! image_json_path image_id) ->
         ~ marked st image_id ->
         (put_image_json req image_id st).1 = Ok conflict_409)
        /\ (marked st image_id ->
            (put_image_json req image_id st).1 <> Ok conflict_409
            /\ store (put_image_json req image_id st).2
                 !! image_json_path image_id = Some (data req)
            /\ marked (put_image_json req image_id st).2 image_id
            /\ (is_Some (parent_chain st (parent_of fields)) ->
                (put_image_json req image_id st).1 = Ok ack))).
Proof.
  split.
  - intros json_data Hjson. split.
    + intros Hlayer Hmark. apply put_image_layer_conflict; [eauto|done|].
      unfold marked in Hmark.
      destruct (store st !! image_mark_path image_id); [|done].
      exfalso. eauto.
    + intros Hmark.
      destruct (store st !! image_checksum_path image_id) as [c|] eqn:Hsum.
      * rewrite (put_image_layer_compares req image_id st c
                   (compute_checksums json_data (input_stream_of req)))
          by by constructor.
        case_bool_decide as Hin; cbn [fst snd erase write store];
          (split_and!; [done| |]).
        -- rewrite lookup_delete_ne by done. apply lookup_insert_eq.
        -- done.
        -- apply lookup_insert_eq.
        -- intros Hall. by specialize (Hall c eq_refl).
      * rewrite (put_image_layer_defers req image_id st json_data) by done.
        cbn [fst snd store]. split_and!; [done| |done].
        apply lookup_insert_eq.
  - intros fields V. rewrite (put_image_json_valid req image_id st fields V).
    cbv zeta. split.
    + intros Hjson Hmark. rewrite bool_decide_true; [done|].
      split; [done|]. unfold marked in Hmark.
      destruct (store st !! image_mark_path image_id); [|done].
      exfalso. eauto.
    + intros Hmark. rewrite bool_decide_false
        by (intros [_ Hnone]; destruct Hmark as [m Hm]; congruence).
      set (st2 := write (image_json_path image_id) (data req)
                    (write (image_mark_path image_id) "true"
                       (checksum_step req image_id st))).
      assert (store st2 !! image_json_path image_id = Some (data req)) as Hj
        by (subst st2; cbn [write store]; apply lookup_insert_eq).
      assert (store st2 !! image_mark_path image_id = Some "true") as Hm.
      { subst st2; cbn [write store].
        rewrite lookup_insert_ne by done. apply lookup_insert_eq. }
      pose proof (generate_ancestry_keeps image_id (parent_of fields)
                    (image_json_path image_id) (Some (data req))
                    ltac:(done) st2 Hj) as Hj'.
      pose proof (generate_ancestry_keeps image_id (parent_of fields)
                    (image_mark_path image_id) (Some "true")
                    ltac:(done) st2 Hm) as Hm'.
      unfold mbind, M_bind.
      destruct (generate_ancestry image_id (parent_of fields) st2)
        as [[[]|e] st3] eqn:Hgen; cbn [fst snd] in *.
      * split_and!; [done|done|by exists "true"|done].
      * split_and!; [done|done|by exists "true"|].
        intros [chain Hchain].
        assert (parent_chain st2 (parent_of fields) = Some chain) as Hchain2.
        { rewrite <- Hchain. apply parent_chain_ext. intros i.
          subst st2; cbn [write store].
          rewrite !lookup_insert_ne by done.
          by apply checksum_step_lookup. }
        rewrite (generate_ancestry_eval _ _ _ _ Hchain2) in Hgen. done.
Qed.

Lemma write_collision_rule_witness :
  let body := Fixture.render (JObj [("id", JStr "A")]) in
  let req := Fixture.plain body None in
  (@put_image_layer Fixture.ext req "A" Fixture.complete_A
   = (Ok conflict_409, Fixture.complete_A)
   /\ store (@put_image_layer Fixture.ext req "A" Fixture.started_A).2
        !! image_layer_path "A" = Some body
   /\ (@put_image_layer Fixture.ext req "A" Fixture.started_A).1 = Ok ack)
  /\ ((@put_image_json Fixture.ext req "A" Fixture.complete_A).1
      = Ok conflict_409
      /\ store (@put_image_json Fixture.ext req "A" Fixture.started_A).2
           !! image_json_path "A" = Some body
      /\ (@put_image_json Fixture.ext req "A" Fixture.started_A).1 = Ok ack).
Proof.
  intros body req.
  assert (forall st, s_repository (session st) = None ->
            @valid_metadata Fixture.ext req "A" st [("id", JStr "A")]) as V.
  { intros st Hrepo. split.
    - reflexivity.
    - reflexivity.
    - intros c Hc. discriminate Hc.
    - rewrite (@check_images_list_eval Fixture.ext). by rewrite Hrepo.
    - intros parent_id Hp. discriminate Hp. }
  split.
  - destruct (@write_collision_rule Fixture.ext req "A" Fixture.complete_A)
      as [Hlayer _].
    destruct (Hlayer body eq_refl) as [Hconflict _].
    destruct (@write_collision_rule Fixture.ext req "A" Fixture.started_A)
      as [Hlayer' _].
    destruct (Hlayer' body eq_refl) as [_ Hretry].
    destruct Hretry as (_ & Hblob & Hack).
    { exists "true". reflexivity. }
    split_and!.
    + apply Hconflict.
      * exists "bytes". reflexivity.
      * intros [m Hm]. discriminate Hm.
    + apply Hblob.
    + apply Hack. intros declared Hd. discriminate Hd.
  - destruct (@write_collision_rule Fixture.ext req "A" Fixture.complete_A)
      as [_ Hjson].
    destruct (Hjson _ (V Fixture.complete_A eq_refl)) as [Hconflict _].
    destruct (@write_collision_rule Fixture.ext req "A" Fixture.started_A)
      as [_ Hjson'].
    destruct (Hjson' _ (V Fixture.started_A eq_refl)) as [_ Hretry].
    destruct Hretry as (_ & Hblob & _ & Hack).
    { exists "true". reflexivity. }
    split_and!.
    + apply Hconflict.
      * exists body. reflexivity.
      * intros [m Hm]. discriminate Hm.
    + apply Hblob.
    + apply Hack. exists []. reflexivity.
Defined.

(** ** C2, C7, C8: the metadata push against its contract *)

Lemma put_image_json_undecodable `{External} req image_id st :
  json_loads (data req) = None ->
  put_image_json req image_id st = (Raise UnboundLocalError, st).
Proof. intros E. unfold put_image_json. by rewrite E. Qed.

(** A valid metadata push for a complete image: the answer is 409, and
    the state it leaves is the one after the checksum step. *)
Lemma put_image_json_conflict_state `{External} req image_id st fields :
  valid_metadata req image_id st fields ->
  is_Some (store st !! image_json_path image_id) ->
  store st !! image_mark_path image_id = None ->
  put_image_json req image_id st
  = (Ok conflict_409, checksum_step req image_id st).
Proof.
  intros V Hjson Hmark. rewrite (put_image_json_valid _ _ _ _ V).
  cbv zeta. by rewrite bool_decide_true.
Qed.

(** C2. On the complete image A of the fixture, whose checksum blob is
    [sha256:00bytes], a metadata push with a valid body and no checksum
    header is answered 409 [Image already exists], and a push whose body
    names another id is answered [JSON data contains invalid id]; in both
    the checksum blob of A has been removed by the time the error is
    returned, so the store is not the one the request found. *)
Theorem metadata_error_after_checksum_removed :
  let st := Fixture.complete_A in
  let retry := Fixture.plain (Fixture.render (JObj [("id", JStr "A")])) None in
  let other := Fixture.plain (Fixture.render (JObj [("id", JStr "Z")])) None in
  store st !! image_checksum_path "A" = Some "sha256:00bytes"
  /\ (@put_image_json Fixture.ext retry "A" st).1 = Ok conflict_409
  /\ store (@put_image_json Fixture.ext retry "A" st).2
       !! image_checksum_path "A" = None
  /\ (@put_image_json Fixture.ext other "A" st).1
     = Ok (api_error "JSON data contains invalid id" None)
  /\ store (@put_image_json Fixture.ext other "A" st).2
       !! image_checksum_path "A" = None
  /\ store (@put_image_json Fixture.ext retry "A" st).2 <> store st.
Proof.
  intros st retry other.
  split_and!; [reflexivity..|].
  intros E.
  assert (store (@put_image_json Fixture.ext retry "A" st).2
            !! image_checksum_path "A"
          = store st !! image_checksum_path "A") as E' by by rewrite E.
  discriminate E'.
Qed.

(** C7. On the complete image A of the fixture (no marker, checksum blob
    [sha256:00bytes]), a metadata push with a valid body and the header
    [X-Docker-Checksum: sha256:ff] is answered 409 [Image already
    exists], and the checksum blob of A is [sha256:ff] afterwards: the
    checksum of a complete image has been changed. *)
Theorem complete_image_checksum_overwritten :
  let st := Fixture.complete_A in
  let req := Fixture.plain (Fixture.render (JObj [("id", JStr "A")]))
               (Some "sha256:ff") in
  store st !! image_mark_path "A" = None
  /\ store st !! image_checksum_path "A" = Some "sha256:00bytes"
  /\ (@put_image_json Fixture.ext req "A" st).1 = Ok conflict_409
  /\ store (@put_image_json Fixture.ext req "A" st).2
       !! image_mark_path "A" = None
  /\ store (@put_image_json Fixture.ext req "A" st).2
       !! image_checksum_path "A" = Some "sha256:ff".
Proof. intros st req. split_and!; reflexivity. Qed.

(** C8. A metadata push whose body does not decode (here the body
    [junk]) does not return the [Invalid JSON] error: the handler ends
    with the uncaught exception [UnboundLocalError], the state
    untouched. *)
Theorem undecodable_metadata_raises :
  let req := Fixture.plain "junk" None in
  Fixture.parse "junk" = None
  /\ @put_image_json Fixture.ext req "A" Fixture.started_A
     = (Raise UnboundLocalError, Fixture.started_A).
Proof. intros req. split; reflexivity. Qed.

(** ** The values of the cache headers *)

Lemma cache_control_value `{External} req :
  cache_headers req !! "Cache-Control" = Some "public, max-age=31536000".
Proof. unfold cache_headers. by rewrite lookup_insert_eq. Qed.

Lemma last_modified_value `{External} req :
  cache_headers req !! "Last-Modified" = Some "Thu, 01 Jan 1970 00:00:00 GMT".
Proof.
  unfold cache_headers.
  rewrite !lookup_insert_ne by done. apply lookup_insert_eq.
Qed.

(** Without [If-Modified-Since] the same read of an image that was never
    uploaded is the 404 of the handler. *)
Lemma unconditional_read_of_unknown_image :
  (@get_image_layer Fixture.ext (Fixture.plain "" None) "never"
     (mk_state ∅ Fixture.no_session)).1
  = Ok (api_error "Image not found" (Some 404)).
Proof. reflexivity. Qed.

(** ** The protocol on the fixture *)

Section Scenarios.
Let doc_A := Fixture.render (JObj [("id", JStr "A")]).
Let doc_B := Fixture.render (JObj [("id", JStr "B"); ("parent", JStr "A")]).
Let empty := mk_state ∅ Fixture.no_session.
Let after_A := (@put_image_json Fixture.ext (Fixture.plain doc_A None) "A" empty).2.

(** Metadata of A, then of B with parent A: the chains are [A] and [B, A]. *)
Lemma scenario_ancestry :
  let after_B :=
    (@put_image_json Fixture.ext (Fixture.plain doc_B None) "B" after_A).2 in
  @ancestry Fixture.ext after_A "A" = Some [JStr "A"]
  /\ @ancestry Fixture.ext after_B "B" = Some [JStr "B"; JStr "A"].
Proof. split; reflexivity. Qed.

(** Metadata, layer with no checksum known, then the checksum: the layer
    is served only after the checksum push matched. *)
Lemma scenario_deferred_checksum :
  let read := Fixture.plain "" None in
  let pushed :=
    @put_image_layer Fixture.ext (Fixture.plain "bytes" None) "A" after_A in
  let confirmed :=
    put_image_checksum (Fixture.plain "" (Some "sha256:00bytes")) "A"
      pushed.2 in
  pushed.1 = Ok ack
  /\ s_checksum (session pushed.2)
     = Some ["sha256:00bytes"; "tarsum+sha256:11bytes"]
  /\ (@get_image_layer Fixture.ext read "A" pushed.2).1
     = Ok (api_error "Image is being uploaded, retry later" None)
  /\ confirmed.1 = Ok ack
  /\ (@get_image_layer Fixture.ext read "A" confirmed.2).1
     = Ok (flask_Response "bytes" 200 (@cache_headers Fixture.ext read)).
Proof. split_and!; reflexivity. Qed.

(** A checksum push with a value outside the list: an error, and the
    layer is still not served. *)
Lemma scenario_wrong_checksum :
  let read := Fixture.plain "" None in
  let refused :=
    put_image_checksum (Fixture.plain "" (Some "sha256:ff")) "A"
      Fixture.deferred_A in
  refused.1 = Ok (api_error "Checksum mismatch" None)
  /\ (@get_image_layer Fixture.ext read "A" refused.2).1
     = Ok (api_error "Image is being uploaded, retry later" None).
Proof. split; reflexivity. Qed.

End Scenarios.

(** * Further properties of the handlers *)

(** ** The read routes once they serve *)

(** An unmarked image and an unconditional request reach the wrapped
    handler, with the cache headers and the session flag down. *)
Lemma read_reaches_body `{External} req
    (f : string -> gmap string string -> M response) image_id st :
  store st !! image_mark_path image_id = None ->
  if_modified_since req = None ->
  require_completion (set_cache_headers req f) image_id st
  = f image_id (cache_headers req) (unmodified st).
Proof.
  intros Hmark Hcond. rewrite require_completion_unmarked by done.
  unfold set_cache_headers. rewrite Hcond.
  rewrite bool_decide_false by (by intros [? ?]).
  reflexivity.
Qed.

Lemma get_image_layer_body_streams `{External} image_id headers st :
  accelerated = false ->
  get_image_layer_body image_id headers st
  = (match store st !! image_layer_path image_id with
     | Some content => Ok (flask_Response content 200 headers)
     | None => Ok (api_error "Image not found" (Some 404))
     end, st).
Proof.
  intros Hacc. unfold get_image_layer_body, accelerated in *.
  assert (try_except
            (content ← store_stream_read (image_layer_path image_id);
             mret (flask_Response content 200 headers))
            IOError (mret (api_error "Image not found" (Some 404))) st
          = (match store st !! image_layer_path image_id with
             | Some content => Ok (flask_Response content 200 headers)
             | None => Ok (api_error "Image not found" (Some 404))
             end, st)) as Hstream.
  { unfold try_except, mbind, M_bind, store_stream_read, store_get_content.
    by destruct (store st !! image_layer_path image_id). }
  destruct nginx_x_accel_redirect as [prefix|]; [|done].
  destruct (nonempty prefix); [|done].
  destruct store_is_local; [done|done].
Qed.

Lemma get_image_layer_streams_or_404_aux `{External} req image_id st :
  store st !! image_mark_path image_id = None ->
  if_modified_since req = None ->
  accelerated = false ->
  get_image_layer req image_id st
  = (match store st !! image_layer_path image_id with
     | Some content => Ok (flask_Response content 200 (cache_headers req))
     | None => Ok (api_error "Image not found" (Some 404))
     end, unmodified st).
Proof.
  intros Hmark Hcond Hacc. unfold get_image_layer.
  rewrite read_reaches_body by done.
  by rewrite get_image_layer_body_streams.
Qed.

(** X1. For an image without marker and a request without
    [If-Modified-Since], when no accelerated redirect applies,
    [get_image_layer] answers 200 with the stored layer bytes and the
    cache headers if the layer blob exists, and 404 [Image not found] if
    it does not; the store is unchanged. *)
Theorem get_image_layer_streams_or_404 `{External} req image_id st :
  store st !! image_mark_path image_id = None ->
  if_modified_since req = None ->
  accelerated = false ->
  get_image_layer req image_id st
  = (match store st !! image_layer_path image_id with
     | Some content => Ok (flask_Response content 200 (cache_headers req))
     | None => Ok (api_error "Image not found" (Some 404))
     end, unmodified st).
Proof.
  intros Hmark Hcond Hacc. unfold get_image_layer.
  rewrite read_reaches_body by done.
  by rewrite get_image_layer_body_streams.
Qed.

Lemma get_image_layer_streams_or_404_witness :
  @get_image_layer Fixture.ext (Fixture.plain "" None) "A" Fixture.complete_A
  = (Ok (flask_Response "bytes" 200
           (@cache_headers Fixture.ext (Fixture.plain "" None))),
     unmodified Fixture.complete_A).
Proof.
  apply (@get_image_layer_streams_or_404 Fixture.ext (Fixture.plain "" None)
           "A" Fixture.complete_A); reflexivity.
Defined.

(** X2. With a non-empty redirect prefix configured and a local store,
    [get_image_layer] for an unmarked image and an unconditional request
    answers 200 with an empty body and the header [X-Accel-Redirect] set
    to the prefix, a slash and the layer path, whether or not the layer
    blob exists: the handler never reads the store and never answers
    404. *)
Theorem get_image_layer_redirects `{External} req image_id st prefix :
  store st !! image_mark_path image_id = None ->
  if_modified_since req = None ->
  nginx_x_accel_redirect = Some prefix ->
  nonempty prefix = true ->
  store_is_local = true ->
  get_image_layer req image_id st
  = (Ok (flask_Response "" 200
           (<["X-Accel-Redirect" :=
                prefix +:+ "/" +:+ path_name (image_layer_path image_id)]>
              (cache_headers req))),
     unmodified st).
Proof.
  intros Hmark Hcond Hprefix Hne Hlocal. unfold get_image_layer.
  rewrite read_reaches_body by done.
  unfold get_image_layer_body. by rewrite Hprefix, Hne, Hlocal.
Qed.

Lemma get_image_layer_redirects_witness :
  let req := Fixture.plain "" None in
  let st := mk_state ∅ Fixture.no_session in
  @get_image_layer Variants.behind_proxy req "never" st
  = (Ok (flask_Response "" 200
           (<["X-Accel-Redirect" := "/protected/images/never/layer"]>
              (@cache_headers Variants.behind_proxy req))),
     unmodified st).
Proof.
  intros req st.
  apply (@get_image_layer_redirects Variants.behind_proxy req "never" st
           "/protected"); reflexivity.
Defined.

Lemma get_image_json_body_eval `{External} image_id headers st :
  get_image_json_body image_id headers st
  = (match store st !! image_json_path image_id with
     | None => Ok (api_error "Image not found" (Some 404))
     | Some content =>
         let sized :=
           match store st !! image_layer_path image_id with
           | Some layer => <["X-Docker-Size" := pretty (String.length layer)]> headers
           | None => headers
           end in
         let summed :=
           match store st !! image_checksum_path image_id with
           | Some checksum => <["X-Docker-Checksum" := checksum]> sized
           | None => sized
           end in
         Ok (toolkit_response (Some (JStr content)) (Some summed) true)
     end, st).
Proof.
  unfold get_image_json_body.
  destruct (store st !! image_json_path image_id) as [content|] eqn:Hjson;
    [|by rewrite (bind_ok _ _ _ _ _ (attempt_get_none _ _ Hjson))].
  rewrite (bind_ok _ _ _ _ _ (attempt_get_some _ _ _ Hjson)).
  unfold try_except, mbind, M_bind, store_get_size, store_exists,
    store_get_content.
  destruct (store st !! image_layer_path image_id) as [layer|] eqn:Hl;
    destruct (store st !! image_checksum_path image_id) as [checksum|] eqn:Hc;
    cbn; rewrite ?Hl, ?Hc; cbn; rewrite ?Hc; try done;
    (case_decide; [|done]); cbn; rewrite Hc; cbn; by rewrite ?Hc.
Qed.

Lemma get_image_ancestry_body_eval `{External} image_id headers st :
  get_image_ancestry_body image_id headers st
  = (match store st !! image_ancestry_path image_id with
     | None => Ok (api_error "Image not found" (Some 404))
     | Some content =>
         match json_loads content with
         | Some chain => Ok (toolkit_response (Some chain) (Some headers) false)
         | None => Raise JSONDecodeError
         end
     end, st).
Proof.
  unfold get_image_ancestry_body.
  destruct (store st !! image_ancestry_path image_id) as [content|] eqn:Hget;
    [|by rewrite (bind_ok _ _ _ _ _ (attempt_get_none _ _ Hget))].
  rewrite (bind_ok _ _ _ _ _ (attempt_get_some _ _ _ Hget)).
  unfold loads, mbind, M_bind. by destruct (json_loads content).
Qed.

(** X3. For an image without marker whose json blob exists and a request
    without [If-Modified-Since], [get_image_json] answers with the stored
    document as raw body; among the response headers [X-Docker-Size] is
    the decimal length of the layer blob exactly when that blob exists,
    [X-Docker-Checksum] is the stored checksum exactly when one is
    stored, and every other header is the cache header of that name. *)
Theorem get_image_json_serves `{External} req image_id st content :
  store st !! image_mark_path image_id = None ->
  if_modified_since req = None ->
  store st !! image_json_path image_id = Some content ->
  exists headers,
    get_image_json req image_id st
    = (Ok (toolkit_response (Some (JStr content)) (Some headers) true),
       unmodified st)
    /\ headers !! "X-Docker-Size"
       = (fun layer => pretty (String.length layer))
           <$> store st !! image_layer_path image_id
    /\ headers !! "X-Docker-Checksum"
       = store st !! image_checksum_path image_id
    /\ (forall name, name <> "X-Docker-Size" -> name <> "X-Docker-Checksum" ->
          headers !! name = cache_headers req !! name).
Proof.
  intros Hmark Hcond Hjson. unfold get_image_json.
  rewrite read_reaches_body by done.
  rewrite get_image_json_body_eval. cbn [store unmodified]. rewrite Hjson.
  eexists. split; [reflexivity|].
  assert (cache_headers req !! "X-Docker-Size" = None) as Hs
    by (unfold cache_headers; by rewrite !lookup_insert_ne, lookup_empty).
  assert (cache_headers req !! "X-Docker-Checksum" = None) as Hc
    by (unfold cache_headers; by rewrite !lookup_insert_ne, lookup_empty).
  destruct (store st !! image_layer_path image_id) as [layer|];
    destruct (store st !! image_checksum_path image_id) as [checksum|];
    cbn [fmap option_fmap option_map];
    (split_and!;
     [ rewrite ?lookup_insert_ne by done; rewrite ?lookup_insert_eq; done
     | rewrite ?lookup_insert_eq; done
     | intros name H1 H2; by rewrite ?lookup_insert_ne by done ]).
Qed.

Lemma get_image_json_serves_witness :
  let req := Fixture.plain "" None in
  exists headers,
    @get_image_json Fixture.ext req "A" Fixture.complete_A
    = (Ok (toolkit_response
             (Some (JStr (Fixture.render (JObj [("id", JStr "A")]))))
             (Some headers) true),
       unmodified Fixture.complete_A)
    /\ headers !! "X-Docker-Size"
       = (fun layer => pretty (String.length layer))
           <$> store Fixture.complete_A !! image_layer_path "A"
    /\ headers !! "X-Docker-Checksum"
       = store Fixture.complete_A !! image_checksum_path "A"
    /\ (forall name, name <> "X-Docker-Size" -> name <> "X-Docker-Checksum" ->
          headers !! name = @cache_headers Fixture.ext req !! name).
Proof.
  intros req.
  apply (@get_image_json_serves Fixture.ext req "A" Fixture.complete_A);
    reflexivity.
Defined.

(** X4. For an image without marker and a request without
    [If-Modified-Since], [get_image_json] answers 404 [Image not found]
    when the json blob is missing and [get_image_ancestry] answers the
    same when the ancestry blob is missing; a missing layer or checksum
    blob does not make [get_image_json] fail. *)
Theorem unknown_image_reads_404 `{External} req image_id st :
  store st !! image_mark_path image_id = None ->
  if_modified_since req = None ->
  (store st !! image_json_path image_id = None ->
   get_image_json req image_id st
   = (Ok (api_error "Image not found" (Some 404)), unmodified st))
  /\ (store st !! image_ancestry_path image_id = None ->
      get_image_ancestry req image_id st
      = (Ok (api_error "Image not found" (Some 404)), unmodified st))
  /\ (is_Some (store st !! image_json_path image_id) ->
      exists body headers,
        (get_image_json req image_id st).1
        = Ok (toolkit_response body headers true)).
Proof.
  intros Hmark Hcond. unfold get_image_json, get_image_ancestry.
  rewrite !read_reaches_body by done.
  rewrite get_image_json_body_eval, get_image_ancestry_body_eval.
  cbn [store unmodified]. split_and!.
  - by intros ->.
  - by intros ->.
  - intros [content ->]. cbn [fst]. eauto.
Qed.

Lemma unknown_image_reads_404_witness :
  let req := Fixture.plain "" None in
  let st := mk_state ∅ Fixture.no_session in
  @get_image_json Fixture.ext req "never" st
  = (Ok (api_error "Image not found" (Some 404)), unmodified st)
  /\ @get_image_ancestry Fixture.ext req "never" st
     = (Ok (api_error "Image not found" (Some 404)), unmodified st).
Proof.
  intros req st.
  destruct (@unknown_image_reads_404 Fixture.ext req "never" st)
    as (Hjson & Hancestry & _); [reflexivity|reflexivity|].
  split; [apply Hjson|apply Hancestry]; reflexivity.
Defined.

(** X5. What [generate_ancestry] writes is what [get_image_ancestry]
    serves: after [generate_ancestry(image_id, parent_id)] ran on a
    readable starting chain, a read of the ancestry of [image_id]
    (unmarked image, unconditional request, codec round-tripping the
    written document) answers with the list made of [image_id] followed
    by that chain, under the cache headers. *)
Theorem ancestry_served_as_generated `{External}
    req image_id parent_id st chain :
  parent_chain st parent_id = Some chain ->
  round_trips (JArr (JStr image_id :: chain)) ->
  store st !! image_mark_path image_id = None ->
  if_modified_since req = None ->
  let st' := (generate_ancestry image_id parent_id st).2 in
  get_image_ancestry req image_id st'
  = (Ok (toolkit_response (Some (JArr (JStr image_id :: chain)))
           (Some (cache_headers req)) false),
     unmodified st').
Proof.
  intros Hchain Hrt Hmark Hcond st'. subst st'.
  rewrite (generate_ancestry_eval _ _ _ _ Hchain). cbn [snd].
  unfold get_image_ancestry. rewrite read_reaches_body; [|by cbn; rewrite lookup_insert_ne|done].
  rewrite get_image_ancestry_body_eval. cbn [store unmodified write].
  rewrite lookup_insert_eq. unfold round_trips in Hrt. by rewrite Hrt.
Qed.

Lemma ancestry_served_as_generated_witness :
  let req := Fixture.plain "" None in
  let st' := (@generate_ancestry Fixture.ext "B" (JStr "A")
                Fixture.complete_A).2 in
  @get_image_ancestry Fixture.ext req "B" st'
  = (Ok (toolkit_response (Some (JArr [JStr "B"; JStr "A"]))
           (Some (@cache_headers Fixture.ext req)) false),
     unmodified st').
Proof.
  intros req.
  apply (@ancestry_served_as_generated Fixture.ext req "B" (JStr "A")
           Fixture.complete_A [JStr "A"]); reflexivity.
Defined.

(** X6. [get_image_ancestry] decodes the stored blob and does not catch a
    decoding failure: for an unmarked image and an unconditional request,
    an ancestry blob that [json.loads] rejects ends the handler with the
    uncaught [JSONDecodeError], and a blob that decodes is served as
    decoded, whatever kind of document it is. *)
Theorem get_image_ancestry_decodes `{External} req image_id st content :
  store st !! image_mark_path image_id = None ->
  if_modified_since req = None ->
  store st !! image_ancestry_path image_id = Some content ->
  get_image_ancestry req image_id st
  = (match json_loads content with
     | Some document =>
         Ok (toolkit_response (Some document) (Some (cache_headers req)) false)
     | None => Raise JSONDecodeError
     end, unmodified st).
Proof.
  intros Hmark Hcond Hget. unfold get_image_ancestry.
  rewrite read_reaches_body by done.
  rewrite get_image_ancestry_body_eval. cbn [store unmodified].
  by rewrite Hget.
Qed.

Lemma get_image_ancestry_decodes_witness :
  let req := Fixture.plain "" None in
  let st := write (image_ancestry_path "A") "junk" Fixture.complete_A in
  @get_image_ancestry Fixture.ext req "A" st
  = (Raise JSONDecodeError, unmodified st).
Proof.
  intros req st.
  apply (@get_image_ancestry_decodes Fixture.ext req "A" st "junk");
    reflexivity.
Defined.

(** The wrapped read handlers hand the state back as they found it. *)
Lemma read_body_state `{External} e image_id headers st :
  (match e with
   | GET_layer => get_image_layer_body image_id headers st
   | GET_json => get_image_json_body image_id headers st
   | _ => get_image_ancestry_body image_id headers st
   end).2 = st.
Proof.
  destruct e; try by rewrite get_image_ancestry_body_eval.
  - unfold get_image_layer_body, try_except, mbind, M_bind,
      store_stream_read, store_get_content.
    destruct nginx_x_accel_redirect as [prefix|];
      [destruct (nonempty prefix); [destruct store_is_local|]|];
      try done;
      by destruct (store st !! image_layer_path image_id).
  - by rewrite get_image_json_body_eval.
Qed.

(** X7. A read changes nothing but Flask's [modified] flag: whatever the
    request and the state, each of the three read routes ends in the
    state it found or in that state with the session flag lowered; the
    store, the session's digest list and its repository are never
    touched, also when the handler raises. *)
Theorem reads_change_only_the_flag `{External} e req image_id st :
  e = GET_layer \/ e = GET_json \/ e = GET_ancestry ->
  let st' := (serve e req image_id st).2 in
  (st' = st \/ st' = unmodified st)
  /\ store st' = store st
  /\ s_checksum (session st') = s_checksum (session st)
  /\ s_repository (session st') = s_repository (session st).
Proof.
  intros He st'.
  assert (st' = st \/ st' = unmodified st) as [->| ->];
    [|by auto|by auto].
  subst st'.
  assert (serve e req image_id st
          = require_completion
              (set_cache_headers req
                 (match e with
                  | GET_layer => get_image_layer_body
                  | GET_json => get_image_json_body
                  | _ => get_image_ancestry_body
                  end)) image_id st) as ->
    by (by destruct He as [-> | [-> | ->]]).
  destruct (store st !! image_mark_path image_id) as [m|] eqn:Hmark.
  - left. by rewrite require_completion_marked by eauto.
  - destruct (if_modified_since req) as [since|] eqn:Hcond.
    + left. rewrite require_completion_unmarked by done.
      by rewrite set_cache_headers_conditional by (rewrite Hcond; eauto).
    + right. rewrite read_reaches_body by done.
      pose proof (read_body_state e image_id (cache_headers req)
                    (unmodified st)) as Hbody.
      by destruct He as [-> | [-> | ->]].
Qed.

Lemma reads_change_only_the_flag_witness :
  let st := Fixture.deferred_A in
  let st' := (@serve Fixture.ext GET_json (Fixture.plain "" None) "Q" st).2 in
  (st' = st \/ st' = unmodified st)
  /\ store st' = store st
  /\ s_checksum (session st') = s_checksum (session st)
  /\ s_repository (session st') = s_repository (session st).
Proof.
  intros st.
  apply (@reads_change_only_the_flag Fixture.ext GET_json
           (Fixture.plain "" None) "Q" st).
  right. left. reflexivity.
Defined.

(** ** The format of a checksum *)

Lemma split_length sep s : length (split sep s) = S (count_char sep s).
Proof.
  induction s as [|c s IH]; [done|]. cbn [split count_char].
  case_decide; cbn [length]; [by rewrite IH|].
  destruct (split sep s) as [|w ws]; [done|]. cbn [length] in *. lia.
Qed.

(** Joining the parts with the separator gives the string back. *)
Lemma split_join sep s :
  String.concat (String sep EmptyString) (split sep s) = s.
Proof.
  induction s as [|c s IH]; [done|]. cbn [split].
  case_decide as Hc.
  - subst c. pose proof (split_length sep s) as Hlen.
    destruct (split sep s) as [|w ws] eqn:Hs; [done|].
    cbn [String.concat] in *. cbn. by rewrite IH.
  - pose proof (split_length sep s) as Hlen.
    destruct (split sep s) as [|w ws] eqn:Hs; [done|].
    destruct ws as [|w' ws']; cbn [String.concat] in *; cbn; by rewrite <- IH.
Qed.

(** X8. [store_checksum] accepts a checksum exactly when it contains one
    colon, empty parts included: it then writes it as the image's
    checksum blob and reports no error; with no colon or more than one it
    reports [Invalid checksum format] and leaves the state as it is. *)
Theorem store_checksum_one_colon `{External} image_id checksum st :
  store_checksum image_id checksum st
  = if bool_decide (count_char ":" checksum = 1%nat)
    then (Ok None, write (image_checksum_path image_id) checksum st)
    else (Ok (Some "Invalid checksum format"), st).
Proof.
  case_bool_decide as Hcount.
  - apply store_checksum_well_formed. unfold well_formed.
    by rewrite split_length, Hcount.
  - apply store_checksum_malformed. unfold well_formed.
    rewrite split_length. lia.
Qed.

(** ** The checksum push and its guards *)

Lemma put_image_checksum_outcomes `{External} req image_id st :
  (exists declared digests,
     verifies req image_id st PUT_checksum declared digests)
  \/ (exists r, put_image_checksum req image_id st = (Ok r, st)
                /\ checksum_guard_error r).
Proof.
  unfold put_image_checksum, checksum_guard_error.
  destruct (x_docker_checksum req) as [c|] eqn:Hhdr; [|right; eauto 10].
  destruct (nonempty c) eqn:Hc; cbn [negb]; [|right; eauto 10].
  unfold mbind at 1, M_bind at 1, session_get_checksum at 1.
  destruct (s_checksum (session st)) as [[|d ds]|] eqn:Hses;
    [right; eauto 10| |right; eauto 10].
  destruct (store st !! image_json_path image_id) as [j|] eqn:Hjson;
    [|right; rewrite (bind_ok _ _ _ _ _ (exists_false _ _ Hjson));
      cbn [negb]; eauto 10].
  rewrite (bind_ok (store_exists _) _ st true st)
    by (apply exists_true; rewrite Hjson; eauto).
  cbn [negb].
  destruct (store st !! image_mark_path image_id) as [m|] eqn:Hmark;
    [|right; rewrite (bind_ok _ _ _ _ _ (exists_false _ _ Hmark));
      cbn [negb]; eauto 10].
  destruct (decide (well_formed c)) as [Hwf|Hwf].
  - left. exists c, (d :: ds).
    apply verifies_checksum; unfold marked;
      rewrite ?Hjson, ?Hmark; eauto.
  - right.
    rewrite (bind_ok (store_exists _) _ st true st)
      by (apply exists_true; rewrite Hmark; eauto).
    cbn [negb].
    rewrite (bind_ok _ _ _ _ _ (store_checksum_malformed _ _ _ Hwf)).
    eauto 10.
Qed.

(** X9. A checksum push either reaches its comparison or is stopped by a
    guard: in the second case the answer is one of the five guard errors
    (missing header, no digest list in the session, 404 for missing
    metadata, 409 for a missing marker, invalid format) and the state is
    exactly the one the request found. *)
Theorem put_image_checksum_guarded `{External} req image_id st :
  (forall declared digests,
     ~ verifies req image_id st PUT_checksum declared digests) ->
  exists r,
    put_image_checksum req image_id st = (Ok r, st)
    /\ checksum_guard_error r.
Proof.
  intros Hno.
  destruct (put_image_checksum_outcomes req image_id st)
    as [(c & ds & V)|Hguard]; [|done].
  by destruct (Hno c ds).
Qed.

Lemma put_image_checksum_guarded_witness :
  let req := Fixture.plain "" (Some "sha256:00bytes") in
  exists r,
    put_image_checksum req "A" Fixture.started_A = (Ok r, Fixture.started_A)
    /\ checksum_guard_error r.
Proof.
  intros req.
  apply (@put_image_checksum_guarded Fixture.ext req "A" Fixture.started_A).
  intros declared digests V. inversion V as [|c ds Hhdr Hwf Hses Hne Hjson Hmark].
  discriminate Hses.
Defined.

(** X10. Through the checksum route the checksum of an image without
    marker cannot be touched: for such an image, complete or unknown, a
    checksum push is never acknowledged and leaves the state as it is;
    when the header, the session's digest list and the metadata are all
    there, the answer is 409 [Cannot set this image checksum]. *)
Theorem put_image_checksum_needs_marker `{External} req image_id st :
  ~ marked st image_id ->
  (put_image_checksum req image_id st).2 = st
  /\ (put_image_checksum req image_id st).1 <> Ok ack
  /\ (forall declared digest digests,
        x_docker_checksum req = Some declared ->
        nonempty declared = true ->
        s_checksum (session st) = Some (digest :: digests) ->
        is_Some (store st !! image_json_path image_id) ->
        (put_image_checksum req image_id st).1
        = Ok (api_error "Cannot set this image checksum" (Some 409))).
Proof.
  intros Hmark.
  destruct (put_image_checksum_outcomes req image_id st)
    as [(c & ds & V)|(r & E & Hr)].
  { inversion V; subst. done. }
  split_and!; [by rewrite E| |].
  - rewrite E. cbn [fst].
    unfold checksum_guard_error, ack in Hr. intros [= ->].
    destruct Hr as [Hr|[Hr|[Hr|[Hr|Hr]]]]; discriminate Hr.
  - intros declared d ds Hhdr Hne Hses Hjson.
    assert (store st !! image_mark_path image_id = None) as Hnone.
    { unfold marked in Hmark.
      destruct (store st !! image_mark_path image_id); [|done].
      exfalso. eauto. }
    clear E Hr. unfold put_image_checksum. rewrite Hhdr, Hne. cbn [negb].
    unfold mbind at 1, M_bind at 1, session_get_checksum at 1. rewrite Hses.
    rewrite (bind_ok _ _ _ _ _ (exists_true _ _ Hjson)). cbn [negb].
    by rewrite (bind_ok _ _ _ _ _ (exists_false _ _ Hnone)).
Qed.

Lemma put_image_checksum_needs_marker_witness :
  let req := Fixture.plain "" (Some "sha256:ff") in
  let st := mk_state (store Fixture.complete_A)
              (mk_session (Some ["sha256:ff"]) None false) in
  (put_image_checksum req "A" st).2 = st
  /\ (put_image_checksum req "A" st).1
     = Ok (api_error "Cannot set this image checksum" (Some 409)).
Proof.
  intros req st.
  destruct (@put_image_checksum_needs_marker Fixture.ext req "A" st)
    as (Hstate & _ & Hanswer).
  { intros [m Hm]. discriminate Hm. }
  split; [apply Hstate|].
  apply (Hanswer "sha256:ff" "sha256:ff" []); try reflexivity.
  exists (Fixture.render (JObj [("id", JStr "A")])). reflexivity.
Defined.

(** ** The layer push: what it touches and how it composes *)

Lemma compute_checksums_nonempty `{External} json_data body :
  compute_checksums json_data body <> [].
Proof.
  unfold compute_checksums. by destruct (compute_tarsum body json_data).
Qed.

Lemma sha256_digest_computed `{External} json_data body :
  "sha256:" +:+ simple_checksum_hexdigest json_data body
  ∈ compute_checksums json_data body.
Proof.
  unfold compute_checksums.
  destruct (compute_tarsum body json_data); cbn [app]; apply list_elem_of_here.
Qed.

Lemma put_image_layer_frame `{External} req image_id st p :
  p <> image_layer_path image_id ->
  p <> image_mark_path image_id ->
  store (put_image_layer req image_id st).2 !! p = store st !! p.
Proof.
  intros Hlayer Hmark.
  assert (preserves (fun s => s !! p = store st !! p)
            (put_image_layer req image_id)) as Hkeep.
  { unfold put_image_layer.
    frame; intros ? ?;
      by rewrite ?lookup_insert_ne, ?lookup_delete_ne by done. }
  by apply Hkeep.
Qed.

(** X11. A layer push writes nowhere but to the layer blob and the marker
    of its image: every other path of the store (the image's json,
    checksum and ancestry, every blob of every other image, every image
    list) holds after the push what it held before, whatever the request
    and however the push ends. *)
Theorem put_image_layer_touches_layer_and_marker `{External}
    req image_id st p :
  p <> image_layer_path image_id ->
  p <> image_mark_path image_id ->
  store (put_image_layer req image_id st).2 !! p = store st !! p.
Proof.
  intros Hlayer Hmark.
  assert (preserves (fun s => s !! p = store st !! p)
            (put_image_layer req image_id)) as Hkeep.
  { unfold put_image_layer.
    frame; intros ? ?;
      by rewrite ?lookup_insert_ne, ?lookup_delete_ne by done. }
  by apply Hkeep.
Qed.

Lemma put_image_layer_touches_layer_and_marker_witness :
  store (@put_image_layer Fixture.ext (Fixture.plain "bytes" None) "A"
           (Fixture.declared_A "sha256:00bytes")).2
    !! image_checksum_path "A"
  = store (Fixture.declared_A "sha256:00bytes") !! image_checksum_path "A".
Proof.
  apply (@put_image_layer_touches_layer_and_marker Fixture.ext
           (Fixture.plain "bytes" None) "A"
           (Fixture.declared_A "sha256:00bytes") (image_checksum_path "A"));
    discriminate.
Defined.

Lemma deferred_comparison `{External}
    req_layer req_sum image_id st json_data declared :
  store st !! image_json_path image_id = Some json_data ->
  marked st image_id ->
  store st !! image_checksum_path image_id = None ->
  x_docker_checksum req_sum = Some declared ->
  well_formed declared ->
  let st1 := (put_image_layer req_layer image_id st).2 in
  let digests := compute_checksums json_data (input_stream_of req_layer) in
  (put_image_layer req_layer image_id st).1 = Ok ack
  /\ put_image_checksum req_sum image_id st1
     = if bool_decide (declared ∈ digests)
       then (Ok ack,
             erase (image_mark_path image_id)
               (write (image_checksum_path image_id) declared st1))
       else (Ok (api_error "Checksum mismatch" None),
             write (image_checksum_path image_id) declared st1).
Proof.
  intros Hjson Hmark Hsum Hhdr Hwf st1 digests. subst st1.
  rewrite (put_image_layer_defers req_layer image_id st json_data) by done.
  cbn [fst snd]. split; [done|].
  apply put_image_checksum_compares.
  apply verifies_checksum; try done.
  - apply compute_checksums_nonempty.
  - cbn [store]. rewrite lookup_insert_ne by done. eauto.
  - unfold marked. cbn [store]. by rewrite lookup_insert_ne.
Qed.


(** X12. The deferred comparison, end to end: when a layer push for a
    marked image finds no checksum stored, the checksum push that follows
    it with a well-formed header compares against the digests that layer
    push computed from the metadata and the stream: it is acknowledged
    and clears the marker exactly when the declared checksum is one of
    them, and answers [Checksum mismatch] otherwise; in both cases the
    declared checksum is stored. *)
Theorem deferred_push_then_checksum `{External}
    req_layer req_sum image_id st json_data declared :
  store st !! image_json_path image_id = Some json_data ->
  marked st image_id ->
  store st !! image_checksum_path image_id = None ->
  x_docker_checksum req_sum = Some declared ->
  well_formed declared ->
  let st1 := (put_image_layer req_layer image_id st).2 in
  let digests := compute_checksums json_data (input_stream_of req_layer) in
  (put_image_layer req_layer image_id st).1 = Ok ack
  /\ put_image_checksum req_sum image_id st1
     = if bool_decide (declared ∈ digests)
       then (Ok ack,
             erase (image_mark_path image_id)
               (write (image_checksum_path image_id) declared st1))
       else (Ok (api_error "Checksum mismatch" None),
             write (image_checksum_path image_id) declared st1).
Proof.
  intros Hjson Hmark Hsum Hhdr Hwf st1 digests. subst st1.
  rewrite (put_image_layer_defers req_layer image_id st json_data) by done.
  cbn [fst snd]. split; [done|].
  apply put_image_checksum_compares.
  apply verifies_checksum; try done.
  - apply compute_checksums_nonempty.
  - cbn [store]. rewrite lookup_insert_ne by done. eauto.
  - unfold marked. cbn [store]. by rewrite lookup_insert_ne.
Qed.

Lemma deferred_push_then_checksum_witness :
  let req_layer := Fixture.plain "bytes" None in
  let req_sum := Fixture.plain "" (Some "tarsum+sha256:11bytes") in
  let st1 := (@put_image_layer Fixture.ext req_layer "A" Fixture.started_A).2 in
  let digests :=
    @compute_checksums Fixture.ext
      (Fixture.render (JObj [("id", JStr "A")])) "bytes" in
  (@put_image_layer Fixture.ext req_layer "A" Fixture.started_A).1 = Ok ack
  /\ put_image_checksum req_sum "A" st1
     = if bool_decide ("tarsum+sha256:11bytes" ∈ digests)
       then (Ok ack,
             erase (image_mark_path "A")
               (write (image_checksum_path "A") "tarsum+sha256:11bytes" st1))
       else (Ok (api_error "Checksum mismatch" None),
             write (image_checksum_path "A") "tarsum+sha256:11bytes" st1).
Proof.
  intros req_layer req_sum.
  apply (@deferred_push_then_checksum Fixture.ext req_layer req_sum "A"
           Fixture.started_A (Fixture.render (JObj [("id", JStr "A")]))
           "tarsum+sha256:11bytes").
  - reflexivity.
  - exists "true". reflexivity.
  - reflexivity.
  - reflexivity.
  - reflexivity.
Defined.

(** X13. A pushed layer is the layer served.  After a layer push whose
    comparison was deferred and a checksum push that declared one of the
    computed digests, an unconditional [get_image_layer] (no accelerated
    redirect) answers 200 with exactly the stream of the layer push. *)
Theorem pushed_layer_is_served `{External}
    req_layer req_sum req_get image_id st json_data declared :
  store st !! image_json_path image_id = Some json_data ->
  marked st image_id ->
  store st !! image_checksum_path image_id = None ->
  x_docker_checksum req_sum = Some declared ->
  well_formed declared ->
  declared ∈ compute_checksums json_data (input_stream_of req_layer) ->
  if_modified_since req_get = None ->
  accelerated = false ->
  let st1 := (put_image_layer req_layer image_id st).2 in
  let st2 := (put_image_checksum req_sum image_id st1).2 in
  get_image_layer req_get image_id st2
  = (Ok (flask_Response (input_stream_of req_layer) 200
           (cache_headers req_get)),
     unmodified st2).
Proof.
  intros Hjson Hmark Hsum Hhdr Hwf Hin Hcond Hacc st1 st2.
  destruct (deferred_comparison req_layer req_sum image_id st
              json_data declared Hjson Hmark Hsum Hhdr Hwf) as [_ E].
  fold st1 in E. rewrite bool_decide_true in E by done.
  subst st2. rewrite E. cbn [snd].
  rewrite get_image_layer_streams_or_404_aux; [|by cbn; rewrite lookup_delete_eq|done|done].
  cbn [store erase write]. rewrite lookup_delete_ne by done.
  rewrite lookup_insert_ne by done.
  subst st1.
  rewrite (put_image_layer_defers req_layer image_id st json_data) by done.
  cbn [snd store]. by rewrite lookup_insert_eq.
Qed.

Lemma pushed_layer_is_served_witness :
  let req_layer := Fixture.plain "bytes" None in
  let req_sum := Fixture.plain "" (Some "sha256:00bytes") in
  let req_get := Fixture.plain "" None in
  let st1 := (@put_image_layer Fixture.ext req_layer "A" Fixture.started_A).2 in
  let st2 := (put_image_checksum req_sum "A" st1).2 in
  @get_image_layer Fixture.ext req_get "A" st2
  = (Ok (flask_Response "bytes" 200 (@cache_headers Fixture.ext req_get)),
     unmodified st2).
Proof.
  intros req_layer req_sum req_get.
  apply (@pushed_layer_is_served Fixture.ext req_layer req_sum req_get "A"
           Fixture.started_A (Fixture.render (JObj [("id", JStr "A")]))
           "sha256:00bytes").
  - reflexivity.
  - exists "true". reflexivity.
  - reflexivity.
  - reflexivity.
  - reflexivity.
  - apply (@sha256_digest_computed Fixture.ext).
  - reflexivity.
  - reflexivity.
Defined.

(** X14. The same round trip when the checksum came first: after a layer
    push that found a stored checksum among the digests it computed, an
    unconditional [get_image_layer] (no accelerated redirect) answers 200
    with exactly the stream of that push; if the stored checksum was not
    among them the same read is still refused as incomplete when the
    image was marked. *)
Theorem verified_layer_is_served `{External}
    req_layer req_get image_id st declared digests :
  verifies req_layer image_id st PUT_layer declared digests ->
  if_modified_since req_get = None ->
  accelerated = false ->
  let st1 := (put_image_layer req_layer image_id st).2 in
  (declared ∈ digests ->
   get_image_layer req_get image_id st1
   = (Ok (flask_Response (input_stream_of req_layer) 200
            (cache_headers req_get)),
      unmodified st1))
  /\ (declared ∉ digests -> marked st image_id ->
      get_image_layer req_get image_id st1
      = (Ok (api_error "Image is being uploaded, retry later" None), st1)).
Proof.
  intros V Hcond Hacc st1. subst st1.
  rewrite (put_image_layer_compares _ _ _ _ _ V). split.
  - intros Hin. rewrite bool_decide_true by done. cbn [snd].
    rewrite get_image_layer_streams_or_404_aux;
      [|by cbn; rewrite lookup_delete_eq|done|done].
    cbn [store erase write]. rewrite lookup_delete_ne by done.
    by rewrite lookup_insert_eq.
  - intros Hout Hmark. rewrite bool_decide_false by done. cbn [snd].
    unfold get_image_layer. apply require_completion_marked.
    cbn [store write]. by rewrite lookup_insert_ne.
Qed.

Lemma verified_layer_is_served_witness :
  let req_layer := Fixture.plain "bytes" None in
  let req_get := Fixture.plain "" None in
  let st := Fixture.declared_A "sha256:00bytes" in
  let st1 := (@put_image_layer Fixture.ext req_layer "A" st).2 in
  @get_image_layer Fixture.ext req_get "A" st1
  = (Ok (flask_Response "bytes" 200 (@cache_headers Fixture.ext req_get)),
     unmodified st1).
Proof.
  intros req_layer req_get st.
  destruct (@verified_layer_is_served Fixture.ext req_layer req_get "A" st
              "sha256:00bytes"
              (@compute_checksums Fixture.ext
                 (Fixture.render (JObj [("id", JStr "A")])) "bytes"))
    as [Hserved _].
  - apply (@verifies_layer Fixture.ext req_layer "A" st
             (Fixture.render (JObj [("id", JStr "A")])) "sha256:00bytes").
    + reflexivity.
    + intros _. exists "true". reflexivity.
    + reflexivity.
  - reflexivity.
  - reflexivity.
  - apply Hserved. apply (@sha256_digest_computed Fixture.ext).
Defined.

(** ** The metadata push: every way it can end *)

(** The checksum step of [put_image_json] either stops the push with
    [Invalid checksum format], nothing written, or goes on from
    [checksum_step]. *)
Lemma checksum_step_eval `{External} req image_id st :
  match x_docker_checksum req with
  | Some c =>
      if nonempty c then store_checksum image_id c
      else store_remove (image_checksum_path image_id) ;; mret None
  | None => store_remove (image_checksum_path image_id) ;; mret None
  end st
  = match x_docker_checksum req with
    | Some c =>
        if nonempty c && negb (bool_decide (well_formed c))
        then (Ok (Some "Invalid checksum format"), st)
        else (Ok None, checksum_step req image_id st)
    | None => (Ok None, checksum_step req image_id st)
    end.
Proof.
  unfold checksum_step.
  destruct (x_docker_checksum req) as [c|]; [|done].
  destruct (nonempty c); [|done]. cbn [andb].
  case_bool_decide as Hwf; cbn [negb].
  - by apply store_checksum_well_formed.
  - by apply store_checksum_malformed.
Qed.

Lemma str_eq_json_true image_id v :
  str_eq_json image_id v = true -> v = JStr image_id.
Proof.
  destruct v; try done. cbn. intros Heq.
  apply bool_decide_eq_true in Heq. by subst.
Qed.

(** A metadata push ends in one of three ways: stopped before its
    checksum step, the state untouched; stopped after it; or through
    every check, in which case it was valid and not a conflict. *)
Lemma put_image_json_outcomes `{External} req image_id st :
  ((put_image_json req image_id st).2 = st
   /\ (put_image_json req image_id st).1 <> Ok ack)
  \/ ((put_image_json req image_id st).2 = checksum_step req image_id st
      /\ (put_image_json req image_id st).1 <> Ok ack)
  \/ (exists fields,
        valid_metadata req image_id st fields
        /\ ~ (is_Some (store st !! image_json_path image_id)
              /\ store st !! image_mark_path image_id = None)).
Proof.
  cut (forall r, put_image_json req image_id st = r ->
         (r.2 = st /\ r.1 <> Ok ack)
         \/ (r.2 = checksum_step req image_id st /\ r.1 <> Ok ack)
         \/ (exists fields,
               valid_metadata req image_id st fields
               /\ ~ (is_Some (store st !! image_json_path image_id)
                     /\ store st !! image_mark_path image_id = None)));
    [intros Hcut; apply (Hcut _ eq_refl)|].
  intros r Hr. unfold put_image_json in Hr.
  destruct (json_loads (data req)) as [doc|] eqn:Hdec;
    [|subst r; by left].
  destruct doc as [|b|n|s|items|fields];
    try (cbn [is_dict negb] in Hr; rewrite ?orb_true_r in Hr;
         subst r; by left).
  cbn [truthy is_dict fields_of] in Hr.
  destruct fields as [|f fields']; [subst r; by left|].
  cbn [negb orb] in Hr.
  destruct (dict_get "id" (f :: fields')) as [doc_id|] eqn:Hid;
    [|subst r; by left].
  unfold mbind at 1, M_bind at 1 in Hr. rewrite checksum_step_eval in Hr.
  set (st1 := checksum_step req image_id st).
  assert (forall p, p <> image_checksum_path image_id ->
            store st1 !! p = store st !! p) as Hsame
    by (intros p Hp; subst st1; by apply checksum_step_lookup).
  assert (forall c, x_docker_checksum req = Some c ->
            nonempty c && negb (bool_decide (well_formed c)) = false ->
            c = "" \/ well_formed c) as Hformat.
  { intros c _ Hc. destruct c as [|a c']; [by left|]. right.
    cbn in Hc. by case_bool_decide. }
  assert (forall r',
          (if negb (str_eq_json image_id doc_id)
           then mret (api_error "JSON data contains invalid id" None)
           else
             listed ← check_images_list image_id;
             if negb listed
             then mret (api_error
               "This image does not belong to the repository" None)
             else
               let parent_id :=
                 default JNull (dict_get "parent" (f :: fields')) in
               orphan ← (if truthy parent_id
                         then negb <$> store_exists
                                (image_json_path (format_id parent_id))
                         else mret false);
               if orphan : bool
               then mret (api_error
                 "Image depends on a non existing parent" None)
               else
                 let json_path := image_json_path image_id in
                 let mark_path := image_mark_path image_id in
                 conflict ← (present ← store_exists json_path;
                             if present : bool
                             then negb <$> store_exists mark_path
                             else mret false);
                 if conflict : bool
                 then mret (api_error "Image already exists" (Some 409))
                 else
                   store_put_content mark_path "true" ;;
                   store_put_content json_path (data req) ;;
                   generate_ancestry image_id parent_id ;;
                   mret ack) st1 = r' ->
          (forall c, x_docker_checksum req = Some c -> c = "" \/ well_formed c) ->
          (r'.2 = st1 /\ r'.1 <> Ok ack)
          \/ (exists fields,
                valid_metadata req image_id st fields
                /\ ~ (is_Some (store st !! image_json_path image_id)
                      /\ store st !! image_mark_path image_id = None)))
    as Hrest.
  { clear r Hr. intros r Hr Hsum. cbv zeta in Hr.
    fold (parent_of (f :: fields')) in Hr.
    destruct (str_eq_json image_id doc_id) eqn:Heq; cbn [negb] in Hr;
      [|subst r; by left].
    apply str_eq_json_true in Heq. subst doc_id.
    assert ((check_images_list image_id st1).1
            = (check_images_list image_id st).1) as Hlist.
    { apply check_images_list_frame.
      - apply checksum_step_session.
      - intros parts. by apply Hsame. }
    pose proof (check_images_list_eval image_id st1) as Hcheck.
    rewrite Hcheck in Hlist. cbn [fst] in Hlist.
    destruct (match s_repository (session st1) with
              | Some name => _ | None => _ end) as [[|]|e].
    2: { rewrite (bind_ok _ _ _ _ _ Hcheck) in Hr. subst r. by left. }
    2: { rewrite (bind_raise _ _ _ _ _ Hcheck) in Hr. subst r. by left. }
    rewrite (bind_ok _ _ _ _ _ Hcheck) in Hr. cbn [negb] in Hr.
    assert (truthy (parent_of (f :: fields')) = true ->
            store_exists
              (image_json_path (format_id (parent_of (f :: fields')))) st1
            = (Ok false, st1) ->
            r.2 = st1 /\ r.1 <> Ok ack) as Horphan.
    { intros Htruthy Hexists.
      rewrite (bind_ok _ _ st1 true st1) in Hr;
        [subst r; done|].
      rewrite Htruthy. unfold fmap, M_fmap. by rewrite Hexists. }
    assert ((if truthy (parent_of (f :: fields'))
             then negb <$> store_exists
                    (image_json_path (format_id (parent_of (f :: fields'))))
             else mret false) st1 = (Ok false, st1) ->
            (truthy (parent_of (f :: fields')) = true ->
             is_Some (store st !! image_json_path
                        (format_id (parent_of (f :: fields'))))) ->
            (r.2 = st1 /\ r.1 <> Ok ack)
            \/ (exists fields,
                  valid_metadata req image_id st fields
                  /\ ~ (is_Some (store st !! image_json_path image_id)
                        /\ store st !! image_mark_path image_id = None)))
      as Hgo.
    { intros Hnot Hparent. rewrite (bind_ok _ _ _ _ _ Hnot) in Hr.
      destruct (store st !! image_json_path image_id) as [j|] eqn:Hj.
      - destruct (store st !! image_mark_path image_id) as [m|] eqn:Hm.
        + right. exists (f :: fields'). split; [by split|].
          by intros [_ ?].
        + left. rewrite (bind_ok _ _ st1 true st1) in Hr; [subst r; done|].
          rewrite (bind_ok (store_exists _) _ st1 true st1)
            by (apply exists_true; rewrite Hsame, Hj by done; eauto).
          unfold fmap, M_fmap.
          by rewrite exists_false by (by rewrite Hsame, Hm by done).
      - right. exists (f :: fields'). split; [by split|].
        intros [[? ?] _]. done. }
    destruct (truthy (parent_of (f :: fields'))) eqn:Htruthy.
    - destruct (store st !! image_json_path
                  (format_id (parent_of (f :: fields')))) as [pj|] eqn:Hpj.
      + apply Hgo; [|eauto].
        unfold fmap, M_fmap.
        by rewrite exists_true by (rewrite Hsame, Hpj by done; eauto).
      + left. apply Horphan; [done|].
        apply exists_false. by rewrite Hsame, Hpj by done.
    - apply Hgo; [done|done]. }
  destruct (x_docker_checksum req) as [c|] eqn:Hhdr.
  - destruct (nonempty c && negb (bool_decide (well_formed c))) eqn:Hbad;
      [subst r; by left|].
    destruct (Hrest r Hr) as [?|?]; [|by auto|by auto].
    intros c' [= <-]. by apply Hformat.
  - destruct (Hrest r Hr) as [?|?]; [|by auto|by auto].
    intros c' Hc'. discriminate Hc'.
Qed.

(** X15. The checks of a metadata push that come before its checksum
    step reject without writing: a body that decodes to anything but a
    non-empty object is answered [Invalid JSON], an object without the
    key [id] is answered with the missing-key error, and a non-empty
    checksum header that does not have exactly one colon is answered
    [Invalid checksum format]; in all three the state is the one the
    request found. *)
Theorem put_image_json_rejects_early `{External} req image_id st doc :
  json_loads (data req) = Some doc ->
  (truthy doc && is_dict doc = false ->
   put_image_json req image_id st = (Ok (api_error "Invalid JSON" None), st))
  /\ (truthy doc && is_dict doc = true ->
      dict_get "id" (fields_of doc) = None ->
      put_image_json req image_id st
      = (Ok (api_error "Missing key `id' in JSON" None), st))
  /\ (forall checksum,
        truthy doc && is_dict doc = true ->
        is_Some (dict_get "id" (fields_of doc)) ->
        x_docker_checksum req = Some checksum ->
        checksum <> "" ->
        ~ well_formed checksum ->
        put_image_json req image_id st
        = (Ok (api_error "Invalid checksum format" None), st)).
Proof.
  intros Hdec. unfold put_image_json. rewrite Hdec. split_and!.
  - intros Hbad.
    destruct (truthy doc), (is_dict doc); try done.
  - intros Hgood Hid.
    destruct (truthy doc), (is_dict doc); try done. cbn [negb orb].
    by rewrite Hid.
  - intros c Hgood [doc_id Hid] Hhdr Hne Hwf.
    destruct (truthy doc), (is_dict doc); try done. cbn [negb orb].
    rewrite Hid. unfold mbind at 1, M_bind at 1.
    rewrite checksum_step_eval, Hhdr.
    assert (nonempty c = true) as -> by (by destruct c).
    by rewrite bool_decide_false by done.
Qed.

Lemma put_image_json_rejects_early_witness :
  let req := Fixture.plain (Fixture.render (JArr [JStr "A"])) None in
  @put_image_json Fixture.ext req "A" Fixture.started_A
  = (Ok (api_error "Invalid JSON" None), Fixture.started_A).
Proof.
  intros req.
  destruct (@put_image_json_rejects_early Fixture.ext req "A"
              Fixture.started_A (JArr [JStr "A"])) as [Hinvalid _].
  - reflexivity.
  - apply Hinvalid. reflexivity.
Defined.

Lemma put_image_json_frame `{External} req image_id st p :
  p <> image_checksum_path image_id ->
  p <> image_json_path image_id ->
  p <> image_mark_path image_id ->
  p <> image_ancestry_path image_id ->
  store (put_image_json req image_id st).2 !! p = store st !! p.
Proof.
  intros Hc Hj Hm Ha.
  assert (preserves (fun s => s !! p = store st !! p)
            (put_image_json req image_id)) as Hkeep.
  { unfold put_image_json, check_images_list, generate_ancestry,
      store_checksum.
    frame; intros ? ?;
      by rewrite ?lookup_insert_ne, ?lookup_delete_ne by done. }
  by apply Hkeep.
Qed.

(** X16. A metadata push writes nowhere but to the checksum, json,
    marker and ancestry blobs of its own image: the image's layer, every
    blob of every other image (the parent's included) and every image
    list hold after the push what they held before, whatever the request
    and however the push ends. *)
Theorem put_image_json_touches_own_blobs `{External} req image_id st p :
  p <> image_checksum_path image_id ->
  p <> image_json_path image_id ->
  p <> image_mark_path image_id ->
  p <> image_ancestry_path image_id ->
  store (put_image_json req image_id st).2 !! p = store st !! p.
Proof.
  intros Hc Hj Hm Ha.
  assert (preserves (fun s => s !! p = store st !! p)
            (put_image_json req image_id)) as Hkeep.
  { unfold put_image_json, check_images_list, generate_ancestry,
      store_checksum.
    frame; intros ? ?;
      by rewrite ?lookup_insert_ne, ?lookup_delete_ne by done. }
  by apply Hkeep.
Qed.

Lemma put_image_json_touches_own_blobs_witness :
  let req := Fixture.plain
               (Fixture.render (JObj [("id", JStr "B"); ("parent", JStr "A")]))
               None in
  store (@put_image_json Fixture.ext req "B" Fixture.complete_A).2
    !! image_ancestry_path "A"
  = store Fixture.complete_A !! image_ancestry_path "A".
Proof.
  intros req.
  apply (@put_image_json_touches_own_blobs Fixture.ext req "B"
           Fixture.complete_A (image_ancestry_path "A")); discriminate.
Defined.

Lemma generate_ancestry_ok `{External} image_id parent_id st st' :
  generate_ancestry image_id parent_id st = (Ok tt, st') ->
  exists chain,
    parent_chain st parent_id = Some chain
    /\ st' = write (image_ancestry_path image_id)
               (json_dumps (JArr (JStr image_id :: chain))) st.
Proof.
  unfold generate_ancestry, parent_chain, ancestry.
  destruct (truthy parent_id); cbn [negb].
  - unfold mbind, M_bind, store_get_content, loads.
    destruct (store st !! image_ancestry_path (format_id parent_id))
      as [content|]; [|done].
    destruct (json_loads content) as [[| | | |items|]|]; try done.
    intros [= <-]. eauto.
  - intros [= <-]. eauto.
Qed.

(** X17. An acknowledged metadata push was a valid one and leaves the
    image as a fresh upload: the request passed validation, and in the
    final state the image is marked, its json blob is the request body,
    its ancestry blob is the printed chain that starts with the image id,
    and its checksum blob is the non-empty checksum header of the
    request, or absent when there was none. *)
Theorem acknowledged_metadata_push `{External} req image_id st :
  (put_image_json req image_id st).1 = Ok ack ->
  let st' := (put_image_json req image_id st).2 in
  (exists fields, valid_metadata req image_id st fields)
  /\ marked st' image_id
  /\ store st' !! image_json_path image_id = Some (data req)
  /\ (exists chain,
        store st' !! image_ancestry_path image_id
        = Some (json_dumps (JArr (JStr image_id :: chain))))
  /\ store st' !! image_checksum_path image_id
     = match x_docker_checksum req with
       | Some checksum => if nonempty checksum then Some checksum else None
       | None => None
       end.
Proof.
  intros Hack st'. subst st'.
  destruct (put_image_json_outcomes req image_id st)
    as [[_ Hno]|[[_ Hno]|(fields & V & Hfree)]]; [done|done|].
  split; [eauto|].
  rewrite (put_image_json_valid _ _ _ _ V) in Hack |- *. cbv zeta in *.
  rewrite bool_decide_false in Hack |- * by done.
  set (st2 := write (image_json_path image_id) (data req)
                (write (image_mark_path image_id) "true"
                   (checksum_step req image_id st))) in *.
  unfold mbind, M_bind in Hack |- *.
  destruct (generate_ancestry image_id (parent_of fields) st2)
    as [[[]|e] st3] eqn:Hgen; [|done].
  destruct (generate_ancestry_ok _ _ _ _ Hgen) as (chain & _ & ->).
  unfold mret, M_ret. cbn [snd]. unfold marked. subst st2. cbn [store write].
  split_and!.
  - rewrite !lookup_insert_ne by done. rewrite lookup_insert_eq. eauto.
  - rewrite lookup_insert_ne by done. apply lookup_insert_eq.
  - exists chain. apply lookup_insert_eq.
  - rewrite !lookup_insert_ne by done.
    unfold checksum_step, write, erase.
    destruct (x_docker_checksum req) as [c|]; [destruct (nonempty c)|];
      cbn [store]; by rewrite ?lookup_insert_eq, ?lookup_delete_eq.
Qed.

Lemma acknowledged_metadata_push_witness :
  let body := Fixture.render (JObj [("id", JStr "A")]) in
  let req := Fixture.plain body (Some "sha256:ff") in
  let st := mk_state ∅ Fixture.no_session in
  let st' := (@put_image_json Fixture.ext req "A" st).2 in
  (exists fields, @valid_metadata Fixture.ext req "A" st fields)
  /\ marked st' "A"
  /\ store st' !! image_json_path "A" = Some body
  /\ (exists chain,
        store st' !! image_ancestry_path "A"
        = Some (Fixture.render (JArr (JStr "A" :: chain))))
  /\ store st' !! image_checksum_path "A" = Some "sha256:ff".
Proof.
  intros body req st.
  apply (@acknowledged_metadata_push Fixture.ext req "A" st).
  reflexivity.
Defined.

(** ** Invariants of the store over all routes *)

Lemma put_image_checksum_frame `{External} req image_id st p :
  p <> image_checksum_path image_id ->
  p <> image_mark_path image_id ->
  store (put_image_checksum req image_id st).2 !! p = store st !! p.
Proof.
  intros Hc Hm.
  assert (preserves (fun s => s !! p = store st !! p)
            (put_image_checksum req image_id)) as Hkeep.
  { unfold put_image_checksum, store_checksum.
    frame; intros ? ?;
      by rewrite ?lookup_insert_ne, ?lookup_delete_ne by done. }
  by apply Hkeep.
Qed.

(** The layer and checksum pushes create no marker. *)
Lemma pushes_create_no_marker `{External} e req image_id st i :
  e = PUT_layer \/ e = PUT_checksum ->
  store st !! image_mark_path i = None ->
  store (serve e req image_id st).2 !! image_mark_path i = None.
Proof.
  intros He Hnone.
  assert (preserves (fun s => s !! image_mark_path i = None)
            (serve e req image_id)) as Hkeep.
  { destruct He as [-> | ->]; cbn [serve];
      unfold put_image_layer, put_image_checksum, store_checksum;
      frame; intros ? ?;
      rewrite ?lookup_insert_ne by done;
      rewrite ?lookup_delete; try case_decide; done. }
  by apply Hkeep.
Qed.

Lemma bind_state_ret {A B} (m : M A) (b : B) st :
  ((m ;; mret b) st).2 = (m st).2.
Proof. unfold mbind, M_bind. by destruct (m st) as [[a|e] st']. Qed.

(** X18. Over every route, request and state: if every marked image has
    its json blob before the request, so it is after it.  A marker is
    only ever written together with the metadata, and the metadata is
    never removed. *)
Theorem marked_images_keep_json `{External} e req image_id st :
  marked_have_json (store st) ->
  marked_have_json (store (serve e req image_id st).2).
Proof.
  intros Inv i Hm.
  assert (e = GET_layer \/ e = GET_json \/ e = GET_ancestry
          \/ e = PUT_layer \/ e = PUT_checksum \/ e = PUT_json)
    as [He|[He|[He|[He|[He|He]]]]] by (destruct e; auto 10).
  1-3: rewrite (reads_keep_store e req image_id (store st)
                    ltac:(auto) st eq_refl) in Hm |- *; by apply Inv.
  - destruct (store st !! image_mark_path i) as [m|] eqn:Hbefore.
    + subst e. cbn [serve]. rewrite put_image_layer_frame by done.
      apply Inv. rewrite Hbefore. eauto.
    + rewrite pushes_create_no_marker in Hm by auto. by destruct Hm.
  - destruct (store st !! image_mark_path i) as [m|] eqn:Hbefore.
    + subst e. cbn [serve]. rewrite put_image_checksum_frame by done.
      apply Inv. rewrite Hbefore. eauto.
    + rewrite pushes_create_no_marker in Hm by auto. by destruct Hm.
  - subst e. cbn [serve] in *.
    destruct (put_image_json_outcomes req image_id st)
      as [[E _]|[[E _]|(fields & V & Hfree)]].
    + rewrite E in Hm |- *. by apply Inv.
    + rewrite E in Hm |- *.
      rewrite checksum_step_lookup in Hm |- * by done. by apply Inv.
    + rewrite (put_image_json_valid _ _ _ _ V) in Hm |- *. cbv zeta in *.
      rewrite bool_decide_false in Hm |- * by done.
      rewrite bind_state_ret in Hm |- *.
      set (st2 := write (image_json_path image_id) (data req)
                    (write (image_mark_path image_id) "true"
                       (checksum_step req image_id st))) in *.
      rewrite (generate_ancestry_keeps image_id (parent_of fields)
                 (image_mark_path i) (store st2 !! image_mark_path i)
                 ltac:(done) st2 eq_refl) in Hm.
      rewrite (generate_ancestry_keeps image_id (parent_of fields)
                 (image_json_path i) (store st2 !! image_json_path i)
                 ltac:(done) st2 eq_refl).
      subst st2. cbn [store write] in *.
      destruct (decide (i = image_id)) as [-> | Hne].
      * rewrite lookup_insert_eq. eauto.
      * rewrite lookup_insert_ne in Hm by done.
        rewrite lookup_insert_ne in Hm
          by (unfold image_mark_path; congruence).
        rewrite lookup_insert_ne by (unfold image_json_path; congruence).
        rewrite lookup_insert_ne by done.
        rewrite checksum_step_lookup in Hm |- * by done. by apply Inv.
Qed.

Lemma marked_images_keep_json_witness :
  marked_have_json
    (store (@serve Fixture.ext PUT_json
              (Fixture.plain (Fixture.render (JObj [("id", JStr "A")])) None)
              "A" (mk_state ∅ Fixture.no_session)).2).
Proof.
  apply (@marked_images_keep_json Fixture.ext PUT_json
           (Fixture.plain (Fixture.render (JObj [("id", JStr "A")])) None)
           "A" (mk_state ∅ Fixture.no_session)).
  intros i Hm. cbn [store] in Hm. rewrite lookup_empty in Hm.
  destruct Hm as [m Hm]. discriminate Hm.
Defined.

(** X19. No route deletes metadata, a layer or a chain: a json, layer or
    ancestry blob that exists before a request, of whatever image, still
    exists after it, whatever the route, the request and the way the
    handler ends.  Only markers and checksums are ever removed. *)
Theorem blobs_are_never_removed `{External} e req image_id st b i :
  b = Json \/ b = Layer \/ b = Ancestry ->
  is_Some (store st !! ImagePath b i) ->
  is_Some (store (serve e req image_id st).2 !! ImagePath b i).
Proof.
  intros Hb Hsome.
  assert (preserves (fun s => is_Some (s !! ImagePath b i))
            (serve e req image_id)) as Hkeep.
  { destruct e; cbn [serve];
      unfold get_image_layer, get_image_json, get_image_ancestry,
        require_completion, set_cache_headers,
        get_image_layer_body, get_image_json_body, get_image_ancestry_body,
        put_image_layer, put_image_checksum, put_image_json,
        check_images_list, generate_ancestry, store_checksum;
      frame; intros ? ?;
      rewrite ?lookup_delete_ne
        by (unfold image_mark_path, image_checksum_path;
            destruct Hb as [-> | [-> | ->]]; done);
      rewrite ?lookup_insert; repeat case_decide; eauto. }
  by apply Hkeep.
Qed.

Lemma blobs_are_never_removed_witness :
  is_Some
    (store (@serve Fixture.ext PUT_json
              (Fixture.plain (Fixture.render (JObj [("id", JStr "Z")])) None)
              "A" Fixture.complete_A).2 !! ImagePath Layer "A").
Proof.
  apply (@blobs_are_never_removed Fixture.ext PUT_json
           (Fixture.plain (Fixture.render (JObj [("id", JStr "Z")])) None)
           "A" Fixture.complete_A Layer "A").
  - right. left. reflexivity.
  - exists "bytes". reflexivity.
Defined.

(** ** Retries, failures inside the chain, the repository check *)

Lemma write_same p c st :
  store st !! p = Some c -> write p c st = st.
Proof.
  intros Hp. destruct st as [s ses]. unfold write; cbn [store session] in *.
  by rewrite insert_id.
Qed.

Lemma erase_absent p st :
  store st !! p = None -> erase p st = st.
Proof.
  intros Hp. destruct st as [s ses]. unfold erase; cbn [store session] in *.
  by rewrite delete_id.
Qed.

Lemma checksum_step_done req image_id st :
  store st !! image_checksum_path image_id
  = match x_docker_checksum req with
    | Some checksum => if nonempty checksum then Some checksum else None
    | None => None
    end ->
  checksum_step req image_id st = st.
Proof.
  intros Hsum. unfold checksum_step.
  destruct (x_docker_checksum req) as [c|]; [destruct (nonempty c)|];
    by (apply write_same || apply erase_absent).
Qed.

(** X20. Repeating an acknowledged metadata push changes nothing: if a
    push was acknowledged and the image is not named as its own parent,
    the same request on the resulting state is acknowledged again and
    ends in that very state. *)
Theorem metadata_retry_is_idempotent `{External} req image_id st fields :
  (put_image_json req image_id st).1 = Ok ack ->
  json_loads (data req) = Some (JObj fields) ->
  (truthy (parent_of fields) = true ->
   format_id (parent_of fields) <> image_id) ->
  let st' := (put_image_json req image_id st).2 in
  put_image_json req image_id st' = (Ok ack, st').
Proof.
  intros Hack Hdec Hself st'.
  destruct (put_image_json_outcomes req image_id st)
    as [[_ Hno]|[[_ Hno]|(fields' & V & Hfree)]]; [done|done|].
  assert (fields' = fields) as ->
    by (destruct V as [Hdec' _ _ _ _]; congruence).
  (* the state the first push ends in *)
  pose proof (put_image_json_valid _ _ _ _ V) as E. cbv zeta in E.
  rewrite bool_decide_false in E by done.
  set (st1 := checksum_step req image_id st) in *.
  set (st2 := write (image_json_path image_id) (data req)
                (write (image_mark_path image_id) "true" st1)) in *.
  rewrite E in Hack. unfold mbind, M_bind in Hack, E.
  destruct (generate_ancestry image_id (parent_of fields) st2)
    as [[[]|e] st3] eqn:Hgen; [|done].
  destruct (generate_ancestry_ok _ _ _ _ Hgen) as (chain & Hchain & ->).
  set (v := json_dumps (JArr (JStr image_id :: chain))) in *.
  assert (st' = write (image_ancestry_path image_id) v st2) as Est'
    by (subst st'; by rewrite E).
  clearbody st'. subst st'.
  set (st' := write (image_ancestry_path image_id) v st2).
  assert (session st' = session st) as Hses
    by (subst st' st2 st1; cbn [session write];
        apply checksum_step_session).
  assert (forall p, p <> image_checksum_path image_id ->
            p <> image_json_path image_id ->
            p <> image_mark_path image_id ->
            p <> image_ancestry_path image_id ->
            store st' !! p = store st !! p) as Hframe.
  { intros p Hc Hj Hm Ha. subst st' st2 st1. cbn [store write].
    rewrite !lookup_insert_ne by done. by apply checksum_step_lookup. }
  assert (store st' !! image_json_path image_id = Some (data req)) as Hj'.
  { subst st' st2. cbn [store write].
    rewrite lookup_insert_ne by done. apply lookup_insert_eq. }
  assert (store st' !! image_mark_path image_id = Some "true") as Hm'.
  { subst st' st2. cbn [store write].
    rewrite !lookup_insert_ne by done. apply lookup_insert_eq. }
  assert (store st' !! image_ancestry_path image_id = Some v) as Ha'
    by (subst st'; cbn [store write]; apply lookup_insert_eq).
  assert (store st' !! image_checksum_path image_id
          = match x_docker_checksum req with
            | Some c => if nonempty c then Some c else None
            | None => None
            end) as Hc'.
  { subst st' st2 st1. cbn [store write].
    rewrite !lookup_insert_ne by done.
    unfold checksum_step, write, erase.
    destruct (x_docker_checksum req) as [c|]; [destruct (nonempty c)|];
      cbn [store]; by rewrite ?lookup_insert_eq, ?lookup_delete_eq. }
  (* the second push is valid on that state *)
  assert (valid_metadata req image_id st' fields) as V'.
  { destruct V as [Hd Hid Hsum Hlisted Hparent]. split; try done.
    - rewrite <- Hlisted. apply check_images_list_frame; [done|].
      intros parts. by apply Hframe.
    - intros parent_id Htruthy. subst parent_id.
      destruct (decide (image_json_path (format_id (parent_of fields))
                        = image_json_path image_id)) as [[= Heq]|Hne].
      + by destruct (Hself Htruthy).
      + rewrite Hframe by done. by apply Hparent. }
  rewrite (put_image_json_valid _ _ _ _ V'). cbv zeta.
  rewrite bool_decide_false by (rewrite Hm'; by intros [_ ?]).
  rewrite (checksum_step_done req image_id st') by done.
  rewrite (write_same (image_mark_path image_id) "true" st') by done.
  rewrite (write_same (image_json_path image_id) (data req) st') by done.
  assert (parent_chain st' (parent_of fields) = Some chain) as Hchain'.
  { rewrite <- Hchain. unfold parent_chain.
    destruct (truthy (parent_of fields)) eqn:Htruthy; [|done].
    unfold ancestry. subst st'. cbn [store write].
    rewrite lookup_insert_ne; [done|].
    intros [= Heq]. by destruct (Hself eq_refl). }
  rewrite (bind_ok _ _ _ _ _ (generate_ancestry_eval _ _ _ _ Hchain')).
  fold v. by rewrite (write_same _ v st') by done.
Qed.

Lemma metadata_retry_is_idempotent_witness :
  let req := Fixture.plain
               (Fixture.render (JObj [("id", JStr "B"); ("parent", JStr "A")]))
               (Some "sha256:ff") in
  let st' := (@put_image_json Fixture.ext req "B" Fixture.complete_A).2 in
  @put_image_json Fixture.ext req "B" st' = (Ok ack, st').
Proof.
  intros req.
  apply (@metadata_retry_is_idempotent Fixture.ext req "B" Fixture.complete_A
           [("id", JStr "B"); ("parent", JStr "A")]).
  - reflexivity.
  - reflexivity.
  - intros _. discriminate.
Defined.

(** X21. A failure while the chain is generated comes after the writes:
    for a valid metadata push that is not a conflict and names a parent
    whose ancestry blob is missing, the handler ends with the uncaught
    [IOError] of the read, and by then the marker and the json blob of
    the image are written; no ancestry blob is written for the image. *)
Theorem missing_parent_chain_raises `{External} req image_id st fields :
  valid_metadata req image_id st fields ->
  ~ (is_Some (store st !! image_json_path image_id)
     /\ store st !! image_mark_path image_id = None) ->
  truthy (parent_of fields) = true ->
  store st !! image_ancestry_path (format_id (parent_of fields)) = None ->
  put_image_json req image_id st
  = (Raise IOError,
     write (image_json_path image_id) (data req)
       (write (image_mark_path image_id) "true"
          (checksum_step req image_id st))).
Proof.
  intros V Hfree Htruthy Hnone.
  rewrite (put_image_json_valid _ _ _ _ V). cbv zeta.
  rewrite bool_decide_false by done.
  apply bind_raise. unfold generate_ancestry. rewrite Htruthy. cbn [negb].
  apply bind_raise. unfold store_get_content. cbn [store write].
  rewrite !lookup_insert_ne by done.
  rewrite checksum_step_lookup by done. by rewrite Hnone.
Qed.

Lemma missing_parent_chain_raises_witness :
  let req := Fixture.plain
               (Fixture.render (JObj [("id", JStr "B"); ("parent", JStr "A")]))
               None in
  @put_image_json Fixture.ext req "B" Variants.broken_parent
  = (Raise IOError,
     write (image_json_path "B") (data req)
       (write (image_mark_path "B") "true"
          (checksum_step req "B" Variants.broken_parent))).
Proof.
  intros req.
  apply (@missing_parent_chain_raises Fixture.ext req "B"
           Variants.broken_parent [("id", JStr "B"); ("parent", JStr "A")]).
  - split.
    + reflexivity.
    + reflexivity.
    + intros c Hc. discriminate Hc.
    + reflexivity.
    + intros parent_id _.
      exists (Fixture.render (JObj [("id", JStr "A")])). reflexivity.
  - intros [[j Hj] _]. discriminate Hj.
  - reflexivity.
  - reflexivity.
Defined.

Lemma existsb_str_eq_json image_id items :
  existsb (str_eq_json image_id) items = true <-> JStr image_id ∈ items.
Proof.
  rewrite existsb_exists. split.
  - intros (v & Hin & Heq). apply str_eq_json_true in Heq. subst v.
    by apply list_elem_of_In.
  - intros Hin. exists (JStr image_id). split; [by apply list_elem_of_In|].
    cbn. by apply bool_decide_eq_true.
Qed.

(** X22. [check_images_list] never changes the state.  It answers [True]
    without looking at the store when the session names no repository
    (none, or the empty string); with a repository [name] it answers
    [False] when the image list at the path of [name.split('/')] is
    missing, and when that list decodes to a JSON array it answers
    [True] exactly when the image id is one of its elements. *)
Theorem check_images_list_decides `{External} image_id st :
  (check_images_list image_id st).2 = st
  /\ (s_repository (session st) = None
      \/ s_repository (session st) = Some "" ->
      (check_images_list image_id st).1 = Ok true)
  /\ (forall name,
        s_repository (session st) = Some name -> name <> "" ->
        (store st !! images_list_path (split "/" name) = None ->
         (check_images_list image_id st).1 = Ok false)
        /\ (forall content items,
              store st !! images_list_path (split "/" name) = Some content ->
              json_loads content = Some (JArr items) ->
              ((check_images_list image_id st).1 = Ok true
               <-> JStr image_id ∈ items)
              /\ ((check_images_list image_id st).1 = Ok false
                  <-> JStr image_id ∉ items))).
Proof.
  rewrite check_images_list_eval. cbn [fst snd]. split_and!; [done| |].
  - by intros [-> | ->].
  - intros name Hrepo Hne. rewrite Hrepo.
    assert (nonempty name = true) as -> by (by destruct name).
    unfold images_list_path. split; [by intros ->|].
    intros content items -> ->. cbn [py_in].
    rewrite <- existsb_str_eq_json.
    destruct (existsb (str_eq_json image_id) items);
      (split; split); try done; try (by intros [=]);
      intros Hno; by destruct Hno.
Qed.

Lemma check_images_list_decides_witness :
  (@check_images_list Fixture.ext "A" Variants.listed_A).1 = Ok true
  /\ (@check_images_list Fixture.ext "B" Variants.listed_A).1 = Ok false.
Proof.
  split.
  - destruct (@check_images_list_decides Fixture.ext "A" Variants.listed_A)
      as (_ & _ & Hnamed).
    destruct (Hnamed "lib/app" eq_refl ltac:(discriminate)) as [_ Hlist].
    destruct (Hlist (Fixture.render (JArr [JStr "A"])) [JStr "A"]
                eq_refl eq_refl) as [Hiff _].
    apply Hiff. apply list_elem_of_here.
  - destruct (@check_images_list_decides Fixture.ext "B" Variants.listed_A)
      as (_ & _ & Hnamed).
    destruct (Hnamed "lib/app" eq_refl ltac:(discriminate)) as [_ Hlist].
    destruct (Hlist (Fixture.render (JArr [JStr "A"])) [JStr "A"]
                eq_refl eq_refl) as [_ Hiff].
    apply Hiff. intros Hin.
    apply list_elem_of_In in Hin. simpl in Hin.
    destruct Hin as [Heq|[]]. discriminate Heq.
Defined.

(** X23. A metadata push for an image the repository does not list is
    refused: when the body decodes to an object whose [id] is the image,
    the checksum header (if any) is acceptable and [check_images_list]
    answers [False], the answer is [This image does not belong to the
    repository]; nothing but the checksum step has touched the store. *)
Theorem unlisted_image_is_rejected `{External} req image_id st fields :
  json_loads (data req) = Some (JObj fields) ->
  dict_get "id" fields = Some (JStr image_id) ->
  (forall c, x_docker_checksum req = Some c -> c = "" \/ well_formed c) ->
  (check_images_list image_id st).1 = Ok false ->
  put_image_json req image_id st
  = (Ok (api_error "This image does not belong to the repository" None),
     checksum_step req image_id st).
Proof.
  intros Hdec Hid Hsum Hlisted.
  unfold put_image_json. rewrite Hdec. cbn [truthy is_dict fields_of].
  destruct fields as [|f fields']; [done|]. cbn [negb orb].
  rewrite Hid. unfold mbind at 1, M_bind at 1. rewrite checksum_step_eval.
  set (st1 := checksum_step req image_id st).
  assert (match x_docker_checksum req with
          | Some c =>
              if nonempty c && negb (bool_decide (well_formed c))
              then (Ok (Some "Invalid checksum format"), st)
              else (Ok None, st1)
          | None => (Ok None, st1)
          end = (Ok None, st1)) as ->.
  { destruct (x_docker_checksum req) as [c|] eqn:Hc; [|done].
    destruct (Hsum c eq_refl) as [-> | Hwf]; [done|].
    rewrite bool_decide_true by done. by rewrite andb_false_r. }
  assert (str_eq_json image_id (JStr image_id) = true) as ->
    by (unfold str_eq_json; by rewrite bool_decide_true).
  cbn [negb].
  assert (check_images_list image_id st1 = (Ok false, st1)) as Hcheck.
  { rewrite (surjective_pairing (check_images_list image_id st1)).
    rewrite (check_images_list_eval image_id st1) at 2. cbn [snd]. f_equal.
    rewrite <- Hlisted. apply check_images_list_frame.
    - apply checksum_step_session.
    - intros parts. by apply checksum_step_lookup. }
  by rewrite (bind_ok _ _ _ _ _ Hcheck).
Qed.

Lemma unlisted_image_is_rejected_witness :
  let req := Fixture.plain (Fixture.render (JObj [("id", JStr "Z")])) None in
  @put_image_json Fixture.ext req "Z" Variants.listed_A
  = (Ok (api_error "This image does not belong to the repository" None),
     checksum_step req "Z" Variants.listed_A).
Proof.
  intros req.
  apply (@unlisted_image_is_rejected Fixture.ext req "Z" Variants.listed_A
           [("id", JStr "Z")]).
  - reflexivity.
  - reflexivity.
  - intros c Hc. discriminate Hc.
  - reflexivity.
Defined.

(** X24. The two pushes of bytes and checksums and the two reads of the
    layer and the metadata never end in an exception: whatever the
    request and the state, [put_image_layer], [put_image_checksum],
    [get_image_layer] and [get_image_json] return a response. *)
Theorem four_routes_never_raise `{External} e req image_id st :
  e = PUT_layer \/ e = PUT_checksum \/ e = GET_layer \/ e = GET_json ->
  exists r, (serve e req image_id st).1 = Ok r.
Proof.
  intros [-> | [-> | He]]; cbn [serve].
  - destruct (store st !! image_json_path image_id) as [json_data|] eqn:Hjson;
      [|rewrite put_image_layer_missing by done; eauto].
    assert ((is_Some (store st !! image_layer_path image_id)
             /\ store st !! image_mark_path image_id = None)
            \/ (is_Some (store st !! image_layer_path image_id) ->
                marked st image_id)) as [[Hl Hm]|Hrule].
    { unfold marked.
      destruct (store st !! image_mark_path image_id); [right; eauto|].
      destruct (store st !! image_layer_path image_id); [left; eauto|].
      right. by intros [? ?]. }
    + rewrite put_image_layer_conflict by eauto. eauto.
    + destruct (store st !! image_checksum_path image_id) as [c|] eqn:Hsum.
      * rewrite (put_image_layer_compares req image_id st c
                   (compute_checksums json_data (input_stream_of req)))
          by by constructor.
        case_bool_decide; eauto.
      * rewrite (put_image_layer_defers req image_id st json_data) by done.
        eauto.
  - destruct (put_image_checksum_outcomes req image_id st)
      as [(c & ds & V)|(r & E & _)]; [|rewrite E; eauto].
    rewrite (put_image_checksum_compares _ _ _ _ _ V).
    case_bool_decide; eauto.
  - assert (serve e req image_id st
            = require_completion
                (set_cache_headers req
                   (match e with
                    | GET_layer => get_image_layer_body
                    | _ => get_image_json_body
                    end)) image_id st) as E
      by (by destruct He as [-> | ->]).
    assert (forall headers st0, exists r,
              (match e with
               | GET_layer => get_image_layer_body
               | _ => get_image_json_body
               end image_id headers st0).1 = Ok r) as Hbody.
    { intros headers st0. destruct He as [-> | ->].
      - unfold get_image_layer_body, try_except, mbind, M_bind,
          store_stream_read, store_get_content.
        destruct nginx_x_accel_redirect as [prefix|];
          [destruct (nonempty prefix); [destruct store_is_local|]|];
          try (by eauto);
          destruct (store st0 !! image_layer_path image_id);
          cbn; try case_decide; by eauto.
      - rewrite get_image_json_body_eval. cbn [fst].
        destruct (store st0 !! image_json_path image_id); eauto. }
    change (exists r, (serve e req image_id st).1 = Ok r).
    rewrite E.
    destruct (store st !! image_mark_path image_id) as [m|] eqn:Hmark.
    + rewrite require_completion_marked by eauto. eauto.
    + destruct (if_modified_since req) as [since|] eqn:Hcond.
      * rewrite require_completion_unmarked by done.
        rewrite set_cache_headers_conditional by (rewrite Hcond; eauto).
        eauto.
      * rewrite read_reaches_body by done. apply Hbody.
Qed.

Lemma four_routes_never_raise_witness :
  exists r,
    (@serve Fixture.ext PUT_layer (Fixture.plain "" None) "never"
       (mk_state ∅ Fixture.no_session)).1 = Ok r.
Proof.
  apply (@four_routes_never_raise Fixture.ext PUT_layer
           (Fixture.plain "" None) "never" (mk_state ∅ Fixture.no_session)).
  left. reflexivity.
Defined.
